(** * ldap-mock: the filter parser, the attribute evaluator, the structural
      comparator and the rule dispatcher, as a shallow embedding in Rocq.

    Go strings are byte strings; they are modelled as Rocq [string]s (lists
    of 8-bit [ascii]).  [strings.ToLower] and [strings.EqualFold] are
    modelled by their ASCII behaviour, which is Go's on ASCII strings;
    [strings.TrimSpace] trims the UTF-8 encoded Unicode white space.  Go maps are stdpp [gmap]s; a
    [range] over a map visits the entries in an order the runtime picks,
    which is an explicit argument ([map_iter]) of the functions that
    iterate over maps. *)

From Stdlib Require Import ZArith Lia Ascii String Sorted.
From stdpp Require Import base list gmap strings.

Local Set Warnings "-register-all".


Open Scope string_scope.
Open Scope nat_scope.

(* ------------------------------------------------------------------ *)
(** ** Go string primitives (package strings) *)

Module GoStr.

Definition lower_ascii (c : ascii) : ascii :=
  let n := Ascii.nat_of_ascii c in
  if (65 <=? n) && (n <=? 90) then Ascii.ascii_of_nat (n + 32) else c.

(** strings.ToLower on ASCII strings (its fast path; on other strings Go
    maps every rune through the Unicode case tables) *)
Fixpoint ToLower (s : string) : string :=
  match s with
  | EmptyString => EmptyString
  | String c s' => String (lower_ascii c) (ToLower s')
  end.

(** strings.EqualFold on ASCII strings (on other strings Go folds runes
    with the Unicode case tables) *)
Definition EqualFold (a b : string) : bool := String.eqb (ToLower a) (ToLower b).

(** strings.Contains(s, string(c)) for a one-byte needle *)
Fixpoint ContainsChar (s : string) (c : ascii) : bool :=
  match s with
  | EmptyString => false
  | String d s' => Ascii.eqb c d || ContainsChar s' c
  end.

(** strings.HasPrefix *)
Fixpoint HasPrefix (s prefix : string) : bool :=
  match prefix, s with
  | EmptyString, _ => true
  | String p prefix', String c s' => Ascii.eqb p c && HasPrefix s' prefix'
  | String _ _, EmptyString => false
  end.

(** strings.HasSuffix *)
Definition HasSuffix (s suffix : string) : bool :=
  (String.length suffix <=? String.length s) &&
  String.eqb (substring (String.length s - String.length suffix)
                        (String.length suffix) s) suffix.

(** strings.Index: the first byte offset of [sub] in [s] *)
Fixpoint Index (s sub : string) : option nat :=
  if HasPrefix s sub then Some 0 else
  match s with
  | EmptyString => None
  | String _ s' => option_map S (Index s' sub)
  end.

(** s[i:] and s[:i] *)
Definition slice_from (s : string) (i : nat) : string :=
  substring i (String.length s - i) s.
Definition slice_to (s : string) (i : nat) : string := substring 0 i s.

(** the bytes of a string *)
Definition bytes (l : list nat) : string :=
  List.fold_right (fun n s => String (Ascii.ascii_of_nat n) s) EmptyString l.

(** unicode.IsSpace: the UTF-8 encodings of the white-space runes U+0009 to
    U+000D, U+0020, U+0085, U+00A0, U+1680, U+2000 to U+200A, U+2028,
    U+2029, U+202F, U+205F and U+3000 *)
Definition space_runes : list string :=
  List.map bytes
    ([[9]; [10]; [11]; [12]; [13]; [32]; [194; 133]; [194; 160]; [225; 154; 128]] ++
     List.map (fun k => [226; 128; k]) (List.seq 128 11) ++
     [[226; 128; 168]; [226; 128; 169]; [226; 128; 175]; [226; 129; 159];
      [227; 128; 128]]).

(** Drops white-space runes from the front of [s], at most [n] of them:
    [utf8.DecodeRuneInString] decodes a white-space rune at the front of
    [s] exactly when [s] starts with its encoding. *)
Fixpoint strip_runes (runes : list string) (n : nat) (s : string) : string :=
  match n with
  | O => s
  | S n' =>
      match List.find (fun r => HasPrefix s r) runes with
      | Some r => strip_runes runes n' (slice_from s (String.length r))
      | None => s
      end
  end.

Fixpoint rev_str (s : string) : string :=
  match s with
  | EmptyString => EmptyString
  | String c s' => rev_str s' ++ String c EmptyString
  end.

(** strings.TrimLeftFunc(s, unicode.IsSpace) *)
Definition trim_left (s : string) : string :=
  strip_runes space_runes (String.length s) s.

(** strings.TrimRightFunc(s, unicode.IsSpace): [utf8.DecodeLastRuneInString]
    decodes a white-space rune at the end of [s] exactly when [s] ends with
    its encoding, that is when the reversed [s] starts with the reversed
    encoding. *)
Definition trim_right (s : string) : string :=
  rev_str (strip_runes (List.map rev_str space_runes) (String.length s) (rev_str s)).

(** strings.TrimSpace (its ASCII fast path trims the same bytes) *)
Definition TrimSpace (s : string) : string := trim_right (trim_left s).

(** the string holds only ASCII bytes (below 128) *)
Fixpoint is_ascii (s : string) : bool :=
  match s with
  | EmptyString => true
  | String c s' => (Ascii.nat_of_ascii c <? 128) && is_ascii s'
  end.

(** strings.Split(s, "*") *)
Fixpoint SplitStar (s : string) : list string :=
  match s with
  | EmptyString => [EmptyString]
  | String c s' =>
      let parts := SplitStar s' in
      if Ascii.eqb c "*"%char then EmptyString :: parts
      else match parts with
           | p :: ps => String c p :: ps
           | [] => [String c EmptyString]
           end
  end.

(** lexicographic byte order: Go's [<=] on strings *)
Fixpoint le (a b : string) : bool :=
  match a, b with
  | EmptyString, _ => true
  | String _ _, EmptyString => false
  | String c a', String d b' =>
      let n := Ascii.nat_of_ascii c in
      let m := Ascii.nat_of_ascii d in
      (n <? m) || ((n =? m) && le a' b')
  end.

End GoStr.

Import GoStr.

(* ------------------------------------------------------------------ *)
(** ** filter.go: the Filter struct *)

Inductive FilterType :=
  | FilterAnd | FilterOr | FilterNot | FilterEqual | FilterApprox
  | FilterGreaterOrEqual | FilterLessOrEqual | FilterPresent | FilterSubstring.

Definition FilterType_eqb (a b : FilterType) : bool :=
  match a, b with
  | FilterAnd, FilterAnd | FilterOr, FilterOr | FilterNot, FilterNot
  | FilterEqual, FilterEqual | FilterApprox, FilterApprox
  | FilterGreaterOrEqual, FilterGreaterOrEqual
  | FilterLessOrEqual, FilterLessOrEqual
  | FilterPresent, FilterPresent | FilterSubstring, FilterSubstring => true
  | _, _ => false
  end.

(** [type Filter struct]; the Go zero value of a string field is [""]. *)
Inductive Filter := mkFilter {
  FType : FilterType;
  Attr : string;
  Value : string;
  Children : list Filter;
  Initial : string;
  Any : list string;
  Final : string
}.

(** [&Filter{Type: t, Attr: a, Value: v}] *)
Definition leaf (t : FilterType) (a v : string) : Filter :=
  mkFilter t a v [] "" [] "".

(* ------------------------------------------------------------------ *)
(** ** filter.go: ParseFilter and its helpers

    The Go functions call one another on strictly shorter strings; the
    [fuel] argument bounds that recursion.  [ParseFilter] starts with
    [S (2 * String.length filterStr)], which never runs out: a call on a
    text of length [n] needs at most [2 * n + 1] (lemma
    [ParseFilter_fuel_stable] below: any larger fuel gives the same
    result). *)

(** the index of the first ['='] of [s] (the loop of [parseItem]) *)
Fixpoint find_eq (s : string) : option nat :=
  match s with
  | EmptyString => None
  | String c s' => if Ascii.eqb c "="%char then Some 0 else option_map S (find_eq s')
  end.

Definition parseSubstringFilter (attr value : string) : option Filter :=
  let parts := SplitStar value in
  match parts with
  | [] => None
  | p0 :: _ =>
      let initial := if negb (String.eqb p0 "") then p0 else "" in
      let lastp := List.last parts "" in
      let final := if (1 <? List.length parts) && negb (String.eqb lastp "")
                   then lastp else "" in
      let middle := List.firstn (List.length parts - 2) (List.skipn 1 parts) in
      let any := List.filter (fun p => negb (String.eqb p "")) middle in
      Some (mkFilter FilterSubstring (ToLower attr) "" [] initial any final)
  end.

Definition is_char_at (s : string) (i : nat) (c : ascii) : bool :=
  match String.get i s with Some d => Ascii.eqb c d | None => false end.

Definition parseItem (s : string) : option Filter :=
  match find_eq s with
  | None => None
  | Some i =>
      let attr := slice_to s i in
      let value := slice_from s (S i) in
      if (0 <? i) && is_char_at s (i - 1) "~"%char then
        Some (leaf FilterApprox (ToLower (slice_to s (i - 1))) value)
      else if (0 <? i) && is_char_at s (i - 1) ">"%char then
        Some (leaf FilterGreaterOrEqual (ToLower (slice_to s (i - 1))) value)
      else if (0 <? i) && is_char_at s (i - 1) "<"%char then
        Some (leaf FilterLessOrEqual (ToLower (slice_to s (i - 1))) value)
      else if String.eqb value "*" then
        Some (leaf FilterPresent (ToLower attr) "")
      else if ContainsChar value "*"%char then
        parseSubstringFilter attr value
      else Some (leaf FilterEqual (ToLower attr) value)
  end.

(** the depth-counting scan of [parseFilterList]: the final [depth] and
    [end] (0 unless the loop broke at a closing parenthesis) *)
Fixpoint scan_depth (s : string) (i : nat) (depth : Z) : Z * nat :=
  match s with
  | EmptyString => (depth, 0)
  | String c s' =>
      if Ascii.eqb c "("%char then scan_depth s' (S i) (depth + 1)%Z
      else if Ascii.eqb c ")"%char then
        let d := (depth - 1)%Z in
        if (d =? 0)%Z then (d, i) else scan_depth s' (S i) d
      else scan_depth s' (S i) depth
  end.

Definition first_char (s : string) : option ascii := String.get 0 s.
Definition last_char (s : string) : option ascii := String.get (String.length s - 1) s.

Fixpoint ParseFilter_fuel (fuel : nat) (filterStr : string) : option Filter :=
  match fuel with
  | O => None
  | S fuel' =>
      let s := TrimSpace filterStr in
      if String.length s =? 0 then None
      else if negb (is_char_at s 0 "("%char) || negb (is_char_at s (String.length s - 1) ")"%char)
      then None
      else parseFilterComp fuel' (substring 1 (String.length s - 2) s)
  end
with parseFilterComp (fuel : nat) (s : string) : option Filter :=
  match fuel with
  | O => None
  | S fuel' =>
      match s with
      | EmptyString => None
      | String c rest =>
          if Ascii.eqb c "&"%char then parseFilterList fuel' rest FilterAnd
          else if Ascii.eqb c "|"%char then parseFilterList fuel' rest FilterOr
          else if Ascii.eqb c "!"%char then
            match ParseFilter_fuel fuel' rest with
            | Some child => Some (mkFilter FilterNot "" "" [child] "" [] "")
            | None => None
            end
          else parseItem s
      end
  end
with parseFilterList (fuel : nat) (s : string) (ft : FilterType) : option Filter :=
  match fuel with
  | O => None
  | S fuel' =>
      match parseFilterList_loop fuel' s with
      | Some [] => None
      | Some cs => Some (mkFilter ft "" "" cs "" [] "")
      | None => None
      end
  end
with parseFilterList_loop (fuel : nat) (s : string) : option (list Filter) :=
  match fuel with
  | O => None
  | S fuel' =>
      match s with
      | EmptyString => Some []
      | String c _ =>
          if negb (Ascii.eqb c "("%char) then None else
          let '(depth, end_) := scan_depth s 0 0 in
          if negb (depth =? 0)%Z then None else
          match ParseFilter_fuel fuel' (slice_to s (S end_)) with
          | None => None
          | Some child =>
              match parseFilterList_loop fuel' (slice_from s (S end_)) with
              | Some cs => Some (child :: cs)
              | None => None
              end
          end
      end
  end.

Definition ParseFilter (filterStr : string) : option Filter :=
  ParseFilter_fuel (S (2 * String.length filterStr)) filterStr.

(* ------------------------------------------------------------------ *)
(** ** filter.go: MatchFilter *)

Definition matchSubstring_any : list string -> string -> bool :=
  fix go (any : list string) (value : string) : bool :=
    match any with
    | [] => true
    | part :: any' =>
        let part := ToLower part in
        match Index value part with
        | None => false
        | Some idx => go any' (slice_from value (idx + String.length part))
        end
    end.

Definition matchSubstring (value initial : string) (any : list string) (final : string) : bool :=
  let value := ToLower value in
  let initial := ToLower initial in
  let final := ToLower final in
  let ok_value :=
    if negb (String.eqb initial "") then
      if negb (HasPrefix value initial) then None
      else Some (slice_from value (String.length initial))
    else Some value in
  match ok_value with
  | None => false
  | Some value =>
      let ok_value :=
        if negb (String.eqb final "") then
          if negb (HasSuffix value final) then None
          else Some (slice_to value (String.length value - String.length final))
        else Some value in
      match ok_value with
      | None => false
      | Some value => matchSubstring_any any value
      end
  end.

Fixpoint matchFilterInternal (filter : Filter) (attrs : gmap string string) : bool :=
  match filter with
  | mkFilter t a v children initial any final =>
      match t with
      | FilterAnd =>
          List.forallb (fun c => matchFilterInternal c attrs) children
      | FilterOr =>
          List.existsb (fun c => matchFilterInternal c attrs) children
      | FilterNot =>
          match children with
          | [] => true
          | c :: _ => negb (matchFilterInternal c attrs)
          end
      | FilterEqual | FilterApprox =>
          match attrs !! a with None => false | Some val => EqualFold val v end
      | FilterGreaterOrEqual =>
          match attrs !! a with None => false | Some val => GoStr.le (ToLower v) (ToLower val) end
      | FilterLessOrEqual =>
          match attrs !! a with None => false | Some val => GoStr.le (ToLower val) (ToLower v) end
      | FilterPresent =>
          match attrs !! a with None => false | Some _ => true end
      | FilterSubstring =>
          match attrs !! a with None => false | Some val => matchSubstring val initial any final end
      end
  end.

(** [MatchFilter]: the keys are lower-cased in the order in which [range]
    visits the map; [map_iter] is that order. *)
Definition normalize (map_iter : gmap string string -> list (string * string))
    (attrs : gmap string string) : gmap string string :=
  List.fold_left (fun m '(k, v) => <[ToLower k := v]> m) (map_iter attrs) ∅.

Definition MatchFilter (map_iter : gmap string string -> list (string * string))
    (filter : Filter) (attrs : gmap string string) : bool :=
  matchFilterInternal filter (normalize map_iter attrs).

(* ------------------------------------------------------------------ *)
(** ** Go's regexp, for the patterns that [wildcardMatch] builds

    [regexp.MatchString] compiles the pattern (RE2 syntax, flags off) and
    reports whether some substring of the text matches.  The builder only
    emits [^], [$], [.*], backslash escapes of punctuation, [|] and plain
    characters; [lex] reads exactly these, and refuses the operators and
    groups the builder never emits unescaped. *)

Module GoRegexp.

Inductive rtok := RBegin | REnd | RDot | RStarDot | RAlt | RLit (c : ascii).

Definition is_punct (c : ascii) : bool :=
  let n := Ascii.nat_of_ascii c in
  ((33 <=? n) && (n <=? 47)) || ((58 <=? n) && (n <=? 64)) ||
  ((91 <=? n) && (n <=? 96)) || ((123 <=? n) && (n <=? 126)).

Definition is_operator (c : ascii) : bool :=
  ContainsChar "*+?()[]{}" c.

Fixpoint lex (r : string) : option (list rtok) :=
  match r with
  | EmptyString => Some []
  | String c r' =>
      if Ascii.eqb c "^"%char then option_map (cons RBegin) (lex r')
      else if Ascii.eqb c "$"%char then option_map (cons REnd) (lex r')
      else if Ascii.eqb c "|"%char then option_map (cons RAlt) (lex r')
      else if Ascii.eqb c "."%char then
        match r' with
        | String d r'' =>
            if Ascii.eqb d "*"%char then
              match r'' with
              | String e _ => if ContainsChar "*+?" e then None
                              else option_map (cons RStarDot) (lex r'')
              | EmptyString => Some [RStarDot]
              end
            else option_map (cons RDot) (lex r')
        | EmptyString => Some [RDot]
        end
      else if Ascii.eqb c "\"%char then
        match r' with
        | String d r'' => if is_punct d then option_map (cons (RLit d)) (lex r'') else None
        | EmptyString => None
        end
      else if is_operator c then None
      else option_map (cons (RLit c)) (lex r')
  end.

(** the top-level alternatives *)
Fixpoint split_alt (ts : list rtok) : list (list rtok) :=
  match ts with
  | [] => [[]]
  | RAlt :: ts' => [] :: split_alt ts'
  | t :: ts' =>
      match split_alt ts' with
      | b :: bs => (t :: b) :: bs
      | [] => [[t]]
      end
  end.

Definition newline : ascii := Ascii.ascii_of_nat 10.

(** [m br pos rest]: the branch [br] matches a prefix of [rest], which starts
    at offset [pos] of the text; [^] is the start and [$] the end of text. *)
Fixpoint m (br : list rtok) (pos : nat) (rest : list ascii) : bool :=
  match br with
  | [] => true
  | RBegin :: br' => (pos =? 0) && m br' pos rest
  | REnd :: br' => match rest with [] => m br' pos rest | _ :: _ => false end
  | RDot :: br' =>
      match rest with
      | c :: r => negb (Ascii.eqb c newline) && m br' (S pos) r
      | [] => false
      end
  | RLit d :: br' =>
      match rest with
      | c :: r => Ascii.eqb c d && m br' (S pos) r
      | [] => false
      end
  | RStarDot :: br' =>
      (fix star (pos : nat) (rest : list ascii) : bool :=
         m br' pos rest ||
         match rest with
         | c :: r => negb (Ascii.eqb c newline) && star (S pos) r
         | [] => false
         end) pos rest
  | RAlt :: _ => false
  end.

Fixpoint search (br : list rtok) (pos : nat) (rest : list ascii) : bool :=
  m br pos rest ||
  match rest with
  | _ :: r => search br (S pos) r
  | [] => false
  end.

(** regexp.MatchString: a pattern that fails to compile gives [false] (the
    error is discarded by [wildcardMatch]) *)
Definition MatchString (pattern s : string) : bool :=
  match lex pattern with
  | None => false
  | Some ts => List.existsb (fun br => search br 0 (list_ascii_of_string s)) (split_alt ts)
  end.

End GoRegexp.

(* ------------------------------------------------------------------ *)
(** ** rule_engine.go: wildcardMatch and filtersMatch *)

Definition regex_escaped (c : ascii) : bool :=
  Ascii.eqb c "."%char || Ascii.eqb c "+"%char || Ascii.eqb c "?"%char ||
  Ascii.eqb c "("%char || Ascii.eqb c ")"%char || Ascii.eqb c "["%char ||
  Ascii.eqb c "]"%char || Ascii.eqb c "{"%char || Ascii.eqb c "}"%char ||
  Ascii.eqb c "^"%char || Ascii.eqb c "$"%char || Ascii.eqb c "\"%char.

(** the body of the loop [for _, c := range pattern] *)
Definition regex_piece (c : ascii) : string :=
  if Ascii.eqb c "*"%char then ".*"
  else if regex_escaped c then String "\"%char (String c EmptyString)
  else String c EmptyString.

Fixpoint regex_body (pattern : string) : string :=
  match pattern with
  | EmptyString => EmptyString
  | String c p' => regex_piece c ++ regex_body p'
  end.

Definition wildcardMatch (pattern str : string) : bool :=
  let pattern := ToLower pattern in
  let str := ToLower str in
  let regexPattern := "^" ++ regex_body pattern ++ "$" in
  GoRegexp.MatchString regexPattern str.

Fixpoint filtersMatch (rule : Filter) : Filter -> bool :=
  match rule with
  | mkFilter rt ra rv rcs ri rany rf =>
  fix filtersMatch_req (req : Filter) : bool :=
  match req with
  | mkFilter qt qa qv qcs qi qany qf =>
  if negb (FilterType_eqb rt qt) then
    if FilterType_eqb rt FilterOr then
      List.existsb (fun child => filtersMatch child req) rcs
    else if FilterType_eqb qt FilterAnd then
      List.existsb (fun child => filtersMatch_req child) qcs
    else false
  else
  match rt with
  | FilterAnd | FilterOr =>
      if List.length qcs <? List.length rcs then false else
      List.forallb (fun ruleChild =>
        List.existsb (fun reqChild => filtersMatch ruleChild reqChild) qcs) rcs
  | FilterNot =>
      match rcs, qcs with
      | r0 :: _, q0 :: _ => filtersMatch r0 q0
      | _, _ => Nat.eqb (List.length rcs) (List.length qcs)
      end
  | FilterEqual | FilterApprox | FilterGreaterOrEqual | FilterLessOrEqual =>
      if negb (EqualFold ra qa) then false
      else if ContainsChar rv "*"%char then wildcardMatch rv qv
      else EqualFold rv qv
  | FilterPresent => EqualFold ra qa
  | FilterSubstring =>
      if negb (EqualFold ra qa) then false
      else if negb (String.eqb ri "") && negb (EqualFold ri qi) then false
      else if negb (String.eqb rf "") && negb (EqualFold rf qf) then false
      else if 0 <? List.length rany then
        if negb (Nat.eqb (List.length rany) (List.length qany)) then false
        else List.forallb (fun '(x, y) => EqualFold x y) (List.combine rany qany)
      else true
  end
  end
  end.

Definition structurallyMatches (ruleF reqF : string) : option bool :=
  match ParseFilter ruleF, ParseFilter reqF with
  | Some r, Some q => Some (filtersMatch r q)
  | _, _ => None
  end.

(* ------------------------------------------------------------------ *)
(** ** Go's sort.Slice (package sort, zsortfunc.go: pattern-defeating
    quicksort).  The slice is a list; [Less(i, j)] and [Swap(i, j)] act on
    its current contents.  Loops that run at most [b - a] times get that
    much fuel; [pdqsort_func] recurses on strictly smaller ranges and gets
    [S length]. *)

Module GoSort.

Section Pdq.
Context {A : Type} (less : A -> A -> bool) (dflt : A).

Definition Less (l : list A) (i j : nat) : bool := less (nth i l dflt) (nth j l dflt).
Definition Swap (l : list A) (i j : nat) : list A :=
  let x := nth i l dflt in
  let y := nth j l dflt in
  <[i := y]> (<[j := x]> l).

(** insertionSort_func *)
Fixpoint insertion_inner (j a : nat) (l : list A) : list A :=
  match j with
  | O => l
  | S j' => if (a <? j) && Less l j j' then insertion_inner j' a (Swap l j j') else l
  end.

Definition insertionSort_func (l : list A) (a b : nat) : list A :=
  List.fold_left (fun l i => insertion_inner i a l) (List.seq (S a) (b - S a)) l.

(** siftDown_func *)
Fixpoint siftDown_func (fuel : nat) (l : list A) (root hi first : nat) : list A :=
  match fuel with
  | O => l
  | S fuel' =>
      let child := 2 * root + 1 in
      if hi <=? child then l else
      let child := if (child + 1 <? hi) && Less l (first + child) (first + child + 1)
                   then child + 1 else child in
      if negb (Less l (first + root) (first + child)) then l else
      siftDown_func fuel' (Swap l (first + root) (first + child)) child hi first
  end.

(** heapSort_func *)
Definition heapSort_func (l : list A) (a b : nat) : list A :=
  let first := a in
  let lo := 0 in
  let hi := b - a in
  let l := List.fold_left (fun l i => siftDown_func hi l i hi first)
             (List.rev (List.seq 0 (S ((hi - 1) / 2)))) l in
  List.fold_left (fun l i => siftDown_func hi (Swap l first (first + i)) lo i first)
    (List.rev (List.seq 0 hi)) l.

(** xorshift over uint64 *)
Definition u64 (x : Z) : Z := Z.land x (Z.ones 64).
Definition xorshift_next (r : Z) : Z :=
  let r := Z.lxor r (u64 (Z.shiftl r 13)) in
  let r := Z.lxor r (Z.shiftr r 7) in
  Z.lxor r (u64 (Z.shiftl r 17)).

(** bits.Len *)
Definition bits_Len (x : nat) : nat := if x =? 0 then 0 else S (Nat.log2 x).
Definition nextPowerOfTwo (length : nat) : nat := 2 ^ bits_Len length.

(** breakPatterns_func *)
Definition breakPatterns_func (l : list A) (a b : nat) : list A :=
  let length := b - a in
  if length <? 8 then l else
  let modulus := nextPowerOfTwo length in
  let idx := a + (length / 4) * 2 - 1 in
  let step '(l, random) i :=
    let random := xorshift_next random in
    let other := Z.to_nat (Z.land random (Z.of_nat modulus - 1)) in
    let other := if length <=? other then other - length else other in
    (Swap l (idx - 1 + i) (a + other), random) in
  fst (List.fold_left step [0; 1; 2] (l, Z.of_nat length)).

Inductive sortedHint := unknownHint | increasingHint | decreasingHint.

(** order2_func and median_func: indices and the swap counter *)
Definition order2_func (l : list A) (a b swaps : nat) : nat * nat * nat :=
  if Less l b a then (b, a, S swaps) else (a, b, swaps).

Definition median_func (l : list A) (a b c swaps : nat) : nat * nat :=
  let '(a, b, swaps) := order2_func l a b swaps in
  let '(b, c, swaps) := order2_func l b c swaps in
  let '(a, b, swaps) := order2_func l a b swaps in
  (b, swaps).

Definition medianAdjacent_func (l : list A) (a swaps : nat) : nat * nat :=
  median_func l (a - 1) a (a + 1) swaps.

(** choosePivot_func *)
Definition choosePivot_func (l : list A) (a b : nat) : nat * sortedHint :=
  let len := b - a in
  let i := a + len / 4 * 1 in
  let j := a + len / 4 * 2 in
  let k := a + len / 4 * 3 in
  let '(j, swaps) :=
    if len <? 8 then (j, 0) else
    let '(i, j, k, swaps) :=
      if len <? 50 then (i, j, k, 0) else
      let '(i, swaps) := medianAdjacent_func l i 0 in
      let '(j, swaps) := medianAdjacent_func l j swaps in
      let '(k, swaps) := medianAdjacent_func l k swaps in
      (i, j, k, swaps) in
    median_func l i j k swaps in
  if swaps =? 0 then (j, increasingHint)
  else if swaps =? 12 then (j, decreasingHint)
  else (j, unknownHint).

(** reverseRange_func *)
Fixpoint reverse_loop (fuel : nat) (l : list A) (i j : nat) : list A :=
  match fuel with
  | O => l
  | S fuel' => if i <? j then reverse_loop fuel' (Swap l i j) (S i) (j - 1) else l
  end.

Definition reverseRange_func (l : list A) (a b : nat) : list A :=
  reverse_loop (b - a) l a (b - 1).

(** [for i <= j && p(i) { i++ }] and [for i <= j && p(j) { j-- }] *)
Fixpoint advance_i (fuel : nat) (p : nat -> bool) (i j : nat) : nat :=
  match fuel with
  | O => i
  | S fuel' => if (i <=? j) && p i then advance_i fuel' p (S i) j else i
  end.

Fixpoint retreat_j (fuel : nat) (p : nat -> bool) (i j : nat) : nat :=
  match fuel with
  | O => j
  | S fuel' => if (i <=? j) && p j then retreat_j fuel' p i (j - 1) else j
  end.

(** partialInsertionSort_func *)
Fixpoint shift_left (j : nat) (l : list A) : list A :=
  match j with
  | O => l
  | S j' => if Less l j j' then shift_left j' (Swap l j j') else l
  end.

Fixpoint shift_right (fuel : nat) (l : list A) (j b : nat) : list A :=
  match fuel with
  | O => l
  | S fuel' => if (j <? b) && Less l j (j - 1) then shift_right fuel' (Swap l j (j - 1)) (S j) b else l
  end.

Fixpoint partial_steps (steps : nat) (l : list A) (i a b : nat) : list A * bool :=
  match steps with
  | O => (l, false)
  | S steps' =>
      let i := advance_i b (fun i => (i <? b) && negb (Less l i (i - 1))) i b in
      if i =? b then (l, true) else
      if b - a <? 50 then (l, false) else
      let l := Swap l i (i - 1) in
      let l := if 2 <=? i - a then shift_left (i - 1) l else l in
      let l := if 2 <=? b - i then shift_right b l (i + 1) b else l in
      partial_steps steps' l i a b
  end.

Definition partialInsertionSort_func (l : list A) (a b : nat) : list A * bool :=
  partial_steps 5 l (S a) a b.

(** partition_func *)
Fixpoint partition_loop (fuel : nat) (l : list A) (a i j : nat) : list A * nat :=
  match fuel with
  | O => (l, j)
  | S fuel' =>
      let i := advance_i (S j) (fun i => Less l i a) i j in
      let j := retreat_j (S j) (fun j => negb (Less l j a)) i j in
      if j <? i then (l, j) else partition_loop fuel' (Swap l i j) a (S i) (j - 1)
  end.

Definition partition_func (l : list A) (a b pivot : nat) : list A * nat * bool :=
  let l := Swap l a pivot in
  let i := S a in
  let j := b - 1 in
  let i := advance_i b (fun i => Less l i a) i j in
  let j := retreat_j b (fun j => negb (Less l j a)) i j in
  if j <? i then (Swap l j a, j, true) else
  let l := Swap l i j in
  let '(l, j) := partition_loop b l a (S i) (j - 1) in
  (Swap l j a, j, false).

(** partitionEqual_func *)
Fixpoint partitionEqual_loop (fuel : nat) (l : list A) (a i j : nat) : list A * nat :=
  match fuel with
  | O => (l, i)
  | S fuel' =>
      let i := advance_i (S j) (fun i => negb (Less l a i)) i j in
      let j := retreat_j (S j) (fun j => Less l a j) i j in
      if j <? i then (l, i) else partitionEqual_loop fuel' (Swap l i j) a (S i) (j - 1)
  end.

Definition partitionEqual_func (l : list A) (a b pivot : nat) : list A * nat :=
  let l := Swap l a pivot in
  partitionEqual_loop b l a (S a) (b - 1).

Definition maxInsertion := 12.

(** pdqsort_func: the [for] loop is the recursion on [fuel] with the loop
    variables [a], [b], [limit], [wasBalanced] and [wasPartitioned] *)
Fixpoint pdqsort_func (fuel : nat) (l : list A) (a b limit : nat)
    (wasBalanced wasPartitioned : bool) : list A :=
  match fuel with
  | O => l
  | S fuel' =>
      let length := b - a in
      if length <=? maxInsertion then insertionSort_func l a b else
      if limit =? 0 then heapSort_func l a b else
      let '(l, limit) := if negb wasBalanced then (breakPatterns_func l a b, limit - 1)
                         else (l, limit) in
      let '(pivot, hint) := choosePivot_func l a b in
      let '(l, pivot, hint) :=
        match hint with
        | decreasingHint => (reverseRange_func l a b, (b - 1) - (pivot - a), increasingHint)
        | _ => (l, pivot, hint)
        end in
      let '(l, sorted) :=
        match hint with
        | increasingHint =>
            if wasBalanced && wasPartitioned then partialInsertionSort_func l a b else (l, false)
        | _ => (l, false)
        end in
      if sorted then l else
      if (0 <? a) && negb (Less l (a - 1) pivot) then
        let '(l, mid) := partitionEqual_func l a b pivot in
        pdqsort_func fuel' l mid b limit wasBalanced wasPartitioned
      else
      let '(l, mid, alreadyPartitioned) := partition_func l a b pivot in
      let wasPartitioned := alreadyPartitioned in
      let leftLen := mid - a in
      let rightLen := b - mid in
      let balanceThreshold := length / 8 in
      if leftLen <? rightLen then
        let wasBalanced := balanceThreshold <=? leftLen in
        let l := pdqsort_func fuel' l a mid limit true true in
        pdqsort_func fuel' l (S mid) b limit wasBalanced wasPartitioned
      else
        let wasBalanced := balanceThreshold <=? rightLen in
        let l := pdqsort_func fuel' l (S mid) b limit true true in
        pdqsort_func fuel' l a mid limit wasBalanced wasPartitioned
  end.

(** sort.Slice *)
Definition Slice (l : list A) : list A :=
  let length := List.length l in
  pdqsort_func (S length) l 0 length (bits_Len length) true true.

End Pdq.
End GoSort.

(* ------------------------------------------------------------------ *)
(** ** config.go and rule_engine.go: rules and the dispatcher *)

Record User := mkUser { CN : string; Attrs : gmap string string }.
Record Group := mkGroup { GCN : string; Members : list string; GAttrs : gmap string string }.
Record Response := mkResponse { Users : list User; Groups : list Group }.
Record Rule := mkRule {
  ID : string; Name : string; RFilter : string; BaseDN : string; Scope : string;
  Priority : Z; RResponse : Response
}.

(** [LDAPScope] is a Go [int]: [ScopeBase = 0], [ScopeOne = 1], [ScopeSub = 2] *)
Definition ScopeBase : Z := 0.
Definition ScopeOne : Z := 1.
Definition ScopeSub : Z := 2.

Definition ParseScope (s : string) : Z :=
  let s := ToLower s in
  if String.eqb s "base" then ScopeBase
  else if String.eqb s "one" then ScopeOne
  else if String.eqb s "sub" then ScopeSub
  else ScopeSub.

Record SearchRequest := mkSearchRequest { RBaseDN : string; RScope : Z; RFilterStr : string }.

Definition dummy_rule : Rule := mkRule "" "" "" "" "" 0 (mkResponse [] []).

(** NewRuleEngine: [copy] into a fresh slice, then [sort.Slice] with
    [sortedRules[i].Priority > sortedRules[j].Priority] *)
Definition NewRuleEngine (rules : list Rule) : list Rule :=
  let sortedRules := rules in
  GoSort.Slice (fun r1 r2 => (Priority r2 <? Priority r1)%Z) dummy_rule sortedRules.

Definition matchRuleFilter (ruleFilter reqFilter : string) : bool :=
  match ParseFilter ruleFilter with
  | None => false
  | Some ruleF =>
      match ParseFilter reqFilter with
      | None => false
      | Some reqF => filtersMatch ruleF reqF
      end
  end.

Fixpoint FindMatchingRule (rules : list Rule) (req : SearchRequest) : option Rule :=
  match rules with
  | [] => None
  | rule :: rules' =>
      if negb (String.eqb (BaseDN rule) "") && negb (EqualFold (BaseDN rule) (RBaseDN req))
      then FindMatchingRule rules' req
      else if negb (String.eqb (Scope rule) "") && negb (ParseScope (Scope rule) =? RScope req)%Z
      then FindMatchingRule rules' req
      else if negb (matchRuleFilter (RFilter rule) (RFilterStr req))
      then FindMatchingRule rules' req
      else Some rule
  end.

(* ------------------------------------------------------------------ *)
(** ** server.go: filterUsers and buildFilter *)

(** the attribute map of [filterUsers]: ["cn"] first, then the record's
    attributes copied in the order [range] visits them *)
Definition user_attrs (map_iter : gmap string string -> list (string * string))
    (user : User) : gmap string string :=
  List.fold_left (fun m '(k, v) => <[k := v]> m) (map_iter (Attrs user))
    (<["cn" := CN user]> (∅ : gmap string string)).

Definition filterUsers (map_iter : gmap string string -> list (string * string))
    (users : list User) (filterStr : string) : list User :=
  if String.eqb filterStr "(objectClass=*)" || String.eqb filterStr "" then users else
  match ParseFilter filterStr with
  | None => users
  | Some filter => List.filter (fun user => MatchFilter map_iter filter (user_attrs map_iter user)) users
  end.

Definition buildFilter (attr value : string) : string :=
  if String.eqb attr "" || String.eqb attr "searchFingerprint" then "(objectClass=*)"
  else "(" ++ attr ++ "=" ++ value ++ ")".

(* ------------------------------------------------------------------ *)
(** ** rule_engine.go: LDAPScope.String *)

Definition ScopeString (s : Z) : string :=
  if (s =? ScopeBase)%Z then "base"
  else if (s =? ScopeOne)%Z then "one"
  else if (s =? ScopeSub)%Z then "sub"
  else "sub".

(* ------------------------------------------------------------------ *)
(** ** request_log.go: the in-memory request log

    A Go slice is [option (list _)]: [None] is the nil slice, [Some xs] a
    non-nil one (possibly empty).  A [time.Time] is kept as an opaque [Z]. *)

Record MatchedRuleLog := mkMatchedRuleLog { RuleID : string; RuleName : string }.

Record LDAPResponseLog := mkLDAPResponseLog {
  ReturnedDNs : option (list string);
  Count : Z
}.

Record LDAPRequestLog := mkLDAPRequestLog {
  Timestamp : Z;
  RequestID : string;
  LogType : string;
  LogBaseDN : string;
  LogScope : string;
  LogFilter : string;
  Attributes : option (list string);
  MatchedRule : option MatchedRuleLog;
  LogResponse : LDAPResponseLog
}.

Definition DefaultRequestLogCapacity : Z := 1000.

(** the zero value of [LDAPRequestLog], which [make] puts in every slot *)
Definition zero_log : LDAPRequestLog :=
  mkLDAPRequestLog 0 "" "" "" "" "" None None (mkLDAPResponseLog None 0).

(** [append([]string(nil), xs...)]: appending no element to a nil slice
    leaves it nil *)
Definition append_to_nil (xs : list string) : option (list string) :=
  match xs with [] => None | _ :: _ => Some xs end.

Definition cloneRequestLog (src : LDAPRequestLog) : LDAPRequestLog :=
  let attrs := match Attributes src with Some xs => append_to_nil xs | None => None end in
  let dns := match ReturnedDNs (LogResponse src) with
             | Some xs => append_to_nil xs | None => None end in
  mkLDAPRequestLog (Timestamp src) (RequestID src) (LogType src) (LogBaseDN src)
    (LogScope src) (LogFilter src) attrs (MatchedRule src)
    (mkLDAPResponseLog dns (Count (LogResponse src))).

(** [InMemoryRequestLogger] without its mutex: every method holds the lock
    for its whole body, so the methods are atomic steps on this record *)
Record InMemoryRequestLogger := mkLogger {
  buffer : list LDAPRequestLog;
  head : Z;
  count : Z;
  capacity : Z
}.

Definition NewInMemoryRequestLogger (capacity : Z) : InMemoryRequestLogger :=
  let capacity := if (capacity <=? 0)%Z then DefaultRequestLogCapacity else capacity in
  mkLogger (repeat zero_log (Z.to_nat capacity)) 0 0 capacity.

(** [InMemoryRequestLogger.Log]; [l.buffer[idx] = entry] is the list
    update at [idx] (the index is below [capacity] = the buffer's length) *)
Definition Logger_Log (l : InMemoryRequestLogger) (req : LDAPRequestLog) : InMemoryRequestLogger :=
  if (capacity l =? 0)%Z then l else
  let entry := cloneRequestLog req in
  if (count l <? capacity l)%Z then
    let idx := ((head l + count l) mod capacity l)%Z in
    mkLogger (<[Z.to_nat idx := entry]> (buffer l)) (head l) (count l + 1)%Z (capacity l)
  else
    mkLogger (<[Z.to_nat (head l) := entry]> (buffer l)) ((head l + 1) mod capacity l)%Z
      (count l) (capacity l).

(** [InMemoryRequestLogger.List]: [nil] when empty, else the entries
    from the slot before [head + count] backwards *)
Definition Logger_List (l : InMemoryRequestLogger) : option (list LDAPRequestLog) :=
  if (count l =? 0)%Z then None else
  Some (List.map (fun i =>
          let idx := ((head l + count l - 1 - Z.of_nat i + capacity l) mod capacity l)%Z in
          cloneRequestLog (nth (Z.to_nat idx) (buffer l) zero_log))
        (List.seq 0 (Z.to_nat (count l)))).

(** [InMemoryRequestLogger.Clear] *)
Definition Logger_Clear (l : InMemoryRequestLogger) : InMemoryRequestLogger :=
  mkLogger (buffer l) 0 0 (capacity l).

(** a sequence of calls on the logger, from its construction *)
Inductive LoggerOp := OpLog (req : LDAPRequestLog) | OpClear.

Definition logger_step (l : InMemoryRequestLogger) (op : LoggerOp) : InMemoryRequestLogger :=
  match op with OpLog req => Logger_Log l req | OpClear => Logger_Clear l end.

Definition run_logger (c : Z) (ops : list LoggerOp) : InMemoryRequestLogger :=
  List.fold_left logger_step ops (NewInMemoryRequestLogger c).

(* ------------------------------------------------------------------ *)
(** ** strconv.Atoi (Go 1.21, 64-bit [int]) *)

Definition byte_of (c : ascii) : Z := Z.of_nat (Ascii.nat_of_ascii c).

(** the fast path's digit loop: [ch -= '0'] on a byte, [n = n*10 + int(ch)];
    at most 18 digits reach it, so [n] stays far below [2^63] *)
Fixpoint atoi_fast_digits (s : string) (n : Z) : option Z :=
  match s with
  | EmptyString => Some n
  | String c s' =>
      let ch := ((byte_of c - 48) mod 256)%Z in
      if (9 <? ch)%Z then None else atoi_fast_digits s' (n * 10 + ch)%Z
  end.

Definition maxUint64 : Z := (2 ^ 64 - 1)%Z.

(** the digit loop of [ParseUint(s, 10, 64)]; [None] is any error *)
Fixpoint parseUint10_loop (s : string) (n : Z) : option Z :=
  match s with
  | EmptyString => Some n
  | String c s' =>
      let b := byte_of c in
      let lc := Z.lor b 32 in
      let d := if (48 <=? b)%Z && (b <=? 57)%Z then Some (b - 48)%Z
               else if (97 <=? lc)%Z && (lc <=? 122)%Z then Some (lc - 97 + 10)%Z
               else None in
      match d with
      | None => None
      | Some d =>
          if (10 <=? d)%Z then None
          else if (maxUint64 / 10 + 1 <=? n)%Z then None
          else
            let n := ((n * 10) mod 2 ^ 64)%Z in
            let n1 := ((n + d) mod 2 ^ 64)%Z in
            if (n1 <? n)%Z || (maxUint64 <? n1)%Z then None
            else parseUint10_loop s' n1
      end
  end.

Definition ParseUint10 (s : string) : option Z :=
  if String.eqb s "" then None else parseUint10_loop s 0.

(** [ParseInt(s, 10, 0)]: a range error of [ParseUint] returns [maxVal],
    which the cut-off tests below reject as well, so every error is [None] *)
Definition ParseInt10 (s : string) : option Z :=
  if String.eqb s "" then None else
  let '(neg, s) :=
    match s with
    | String c s' =>
        if Ascii.eqb c "+"%char then (false, s')
        else if Ascii.eqb c "-"%char then (true, s') else (false, s)
    | EmptyString => (false, s)
    end in
  match ParseUint10 s with
  | None => None
  | Some un =>
      let cutoff := (2 ^ 63)%Z in
      if negb neg && (cutoff <=? un)%Z then None
      else if neg && (cutoff <? un)%Z then None
      else Some (if neg then - un else un)%Z
  end.

Definition Atoi (s : string) : option Z :=
  let sLen := String.length s in
  if (0 <? sLen) && (sLen <? 19) then
    match s with
    | EmptyString => None
    | String c s' =>
        let signed := Ascii.eqb c "-"%char || Ascii.eqb c "+"%char in
        let digits := if signed then s' else s in
        if signed && (String.length digits <? 1) then None else
        match atoi_fast_digits digits 0 with
        | None => None
        | Some n => Some (if Ascii.eqb c "-"%char then - n else n)%Z
        end
    end
  else ParseInt10 s.

(** a reading of what [Atoi] accepts: an optional sign, then at least
    one ASCII digit, with the value in the range of a 64-bit [int] *)
Definition is_dec_digit (c : ascii) : bool := (48 <=? byte_of c)%Z && (byte_of c <=? 57)%Z.

Fixpoint dec_value_from (s : string) (n : Z) : option Z :=
  match s with
  | EmptyString => Some n
  | String c s' => if is_dec_digit c then dec_value_from s' (n * 10 + (byte_of c - 48))%Z else None
  end.

Definition int64_digits (neg : bool) (r : string) : option Z :=
  match r with
  | EmptyString => None
  | String _ _ =>
      match dec_value_from r 0 with
      | None => None
      | Some v =>
          if neg then (if (v <=? 2 ^ 63)%Z then Some (- v)%Z else None)
          else (if (v <? 2 ^ 63)%Z then Some v else None)
      end
  end.

Definition atoi_ref (s : string) : option Z :=
  match s with
  | EmptyString => None
  | String c r =>
      if Ascii.eqb c "-"%char then int64_digits true r
      else if Ascii.eqb c "+"%char then int64_digits false r
      else int64_digits false s
  end.

(* ------------------------------------------------------------------ *)
(** ** mock_server.go: GET /requests *)

Inductive RequestsResponse :=
  | RequestsBadRequest (body : string)
  | RequestsJSON (logs : option (list LDAPRequestLog)).

Definition handle_requests (limitParam : string) (l : InMemoryRequestLogger) : RequestsResponse :=
  let limit :=
    if String.eqb limitParam "" then Some (-1)%Z else
    match Atoi limitParam with
    | Some val => if (val <? 0)%Z then None else Some val
    | None => None
    end in
  match limit with
  | None => RequestsBadRequest "invalid limit"
  | Some limit =>
      let logs := Logger_List l in
      let len := match logs with None => 0 | Some xs => List.length xs end in
      let logs := if (0 <=? limit)%Z && (limit <? Z.of_nat len)%Z
                  then option_map (List.firstn (Z.to_nat limit)) logs else logs in
      RequestsJSON logs
  end.

(* ------------------------------------------------------------------ *)
(** ** server.go: the search handler *)

Record LDAPMock := mkLDAPMock { MockUsers : list User; MockRules : list Rule }.

(** the fields of [godap.LDAPSimpleSearchRequest] the handler reads *)
Record LDAPSimpleSearchRequest := mkSimpleSearchRequest {
  SBaseDN : string; SFilterAttr : string; SFilterValue : string; SScope : Z
}.

(** the [any] values the handler stores: a string or a []string *)
Inductive AttrValue := AttrString (v : string) | AttrStrings (vs : list string).

Record LDAPSimpleSearchResultEntry := mkEntry { DN : string; EAttrs : gmap string AttrValue }.

Definition findMatchingEntries (map_iter : gmap string string -> list (string * string))
    (mock : LDAPMock) (req : LDAPSimpleSearchRequest) (filter : string)
    : list User * list Group * option Rule :=
  let matched :=
    if 0 <? List.length (MockRules mock) then
      FindMatchingRule (NewRuleEngine (MockRules mock))
        (mkSearchRequest (SBaseDN req) (SScope req) filter)
    else None in
  match matched with
  | Some rule => (Users (RResponse rule), Groups (RResponse rule), Some rule)
  | None => (filterUsers map_iter (MockUsers mock) filter, [], None)
  end.

Definition copy_attrs (map_iter : gmap string string -> list (string * string))
    (m : gmap string string) : gmap string AttrValue :=
  List.fold_left (fun acc '(k, v) => <[k := AttrString v]> acc) (map_iter m) ∅.

Definition user_entry (map_iter : gmap string string -> list (string * string))
    (user : User) : LDAPSimpleSearchResultEntry :=
  mkEntry (CN user) (copy_attrs map_iter (Attrs user)).

Definition group_entry (map_iter : gmap string string -> list (string * string))
    (group : Group) : LDAPSimpleSearchResultEntry :=
  let attrs := copy_attrs map_iter (GAttrs group) in
  let attrs := if 0 <? List.length (Members group)
               then <["member" := AttrStrings (Members group)]> attrs else attrs in
  mkEntry (GCN group) attrs.

(** the [LDAPSimpleSearchFunc] handler: the entries it answers with and the
    logger after its [Log] call; [ts] and [rid] are [time.Now().UTC()] and
    [uuid.NewString()] *)
Definition search_handler (map_iter : gmap string string -> list (string * string))
    (mock : LDAPMock) (logger : InMemoryRequestLogger) (ts : Z) (rid : string)
    (req : LDAPSimpleSearchRequest) : list LDAPSimpleSearchResultEntry * InMemoryRequestLogger :=
  let filter := buildFilter (SFilterAttr req) (SFilterValue req) in
  let '(users, groups, matchedRule) := findMatchingEntries map_iter mock req filter in
  let ret := (List.map (user_entry map_iter) users ++ List.map (group_entry map_iter) groups)%list in
  let returnedDNs := (List.map CN users ++ List.map GCN groups)%list in
  let requestLog :=
    mkLDAPRequestLog ts rid "search" (SBaseDN req) (ScopeString (SScope req)) filter None
      (option_map (fun r => mkMatchedRuleLog (ID r) (Name r)) matchedRule)
      (mkLDAPResponseLog (Some returnedDNs) (Z.of_nat (List.length returnedDNs))) in
  (ret, Logger_Log logger requestLog).

(** POST /clean: [SetMock(LDAPMock{})] *)
Definition clean_mock : LDAPMock := mkLDAPMock [] [].

(* ------------------------------------------------------------------ *)
(** ** The request log as a sequence of calls *)

(** the requests logged since the last [Clear] (all of them if none) *)
Definition since_clear_step (acc : list LDAPRequestLog) (op : LoggerOp) : list LDAPRequestLog :=
  match op with OpLog r => (acc ++ [r])%list | OpClear => [] end.

Definition since_clear (ops : list LoggerOp) : list LDAPRequestLog :=
  List.fold_left since_clear_step ops [].

(** the capacity [NewInMemoryRequestLogger] settles on *)
Definition logger_cap (c : Z) : Z := if (c <=? 0)%Z then DefaultRequestLogCapacity else c.

(** the last [cap] elements of [xs] *)
Definition log_window (cap : nat) (xs : list LDAPRequestLog) : list LDAPRequestLog :=
  List.skipn (List.length xs - cap) xs.

(** the ring buffer holds [L] (oldest first, already cloned) in the slots
    [head], [head + 1], ... modulo [capacity] *)
Definition logger_inv (l : InMemoryRequestLogger) (L : list LDAPRequestLog) : Prop :=
  (0 < capacity l)%Z /\ List.length (buffer l) = Z.to_nat (capacity l) /\
  (0 <= head l < capacity l)%Z /\ count l = Z.of_nat (List.length L) /\
  (Z.of_nat (List.length L) <= capacity l)%Z /\
  List.Forall (fun x => cloneRequestLog x = x) L /\
  (forall i, i < List.length L ->
     nth (Z.to_nat ((head l + Z.of_nat i) mod capacity l)) (buffer l) zero_log = nth i L zero_log).

(* ------------------------------------------------------------------ *)
(** ** The shape of what ParseFilter builds *)

Definition is_nil {A} (l : list A) : bool := match l with [] => true | _ :: _ => false end.

(** And/Or nodes carry no attribute and at least one child; a Not node
    exactly one child; a leaf no child and, for a substring filter, pieces
    free of ['*'] ([Any] pieces non-empty); an Equal value contains no
    ['*'] and a Present value is empty *)
Fixpoint parsed_shape (f : Filter) : bool :=
  match f with
  | mkFilter t a v cs ini any fin =>
      let no_parts := String.eqb ini "" && is_nil any && String.eqb fin "" in
      match t with
      | FilterAnd | FilterOr =>
          String.eqb a "" && String.eqb v "" && negb (is_nil cs) && no_parts &&
          List.forallb parsed_shape cs
      | FilterNot =>
          String.eqb a "" && String.eqb v "" && no_parts &&
          match cs with [c] => parsed_shape c | _ => false end
      | FilterEqual =>
          is_nil cs && no_parts && negb (ContainsChar v "*"%char)
      | FilterApprox | FilterGreaterOrEqual | FilterLessOrEqual =>
          is_nil cs && no_parts
      | FilterPresent =>
          is_nil cs && no_parts && String.eqb v ""
      | FilterSubstring =>
          is_nil cs && String.eqb v "" &&
          negb (ContainsChar ini "*"%char) && negb (ContainsChar fin "*"%char) &&
          List.forallb (fun p => negb (String.eqb p "") && negb (ContainsChar p "*"%char)) any
      end
  end.

(* ------------------------------------------------------------------ *)
(** ** The child lists of [&] and [|] *)


Definition concat_strs (l : list string) : string :=
  List.fold_right String.append EmptyString l.




(* ------------------------------------------------------------------ *)
(** ** Reference readings and helper definitions used by the proofs *)

(** The spec's reading of C3: the final suffix is tested on the whole
    (case-folded) value, so [initial] and [final] may overlap. *)
Definition substring_overlap_ok (value initial final : string) : bool :=
  HasPrefix (ToLower value) (ToLower initial) && HasSuffix (ToLower value) (ToLower final).

(** The spec's reading of C4: [*] matches any run of characters (also the
    empty one) and every other character of the pattern stands for itself,
    anchored at both ends, after case folding. *)
Fixpoint glob (p s : list ascii) : bool :=
  match p with
  | [] => match s with [] => true | _ :: _ => false end
  | c :: p' =>
      if Ascii.eqb c "*"%char then
        (fix star (s : list ascii) : bool :=
           glob p' s || match s with _ :: s' => star s' | [] => false end) s
      else match s with d :: s' => Ascii.eqb c d && glob p' s' | [] => false end
  end.

Definition wildcard_spec (pattern str : string) : bool :=
  glob (list_ascii_of_string (ToLower pattern)) (list_ascii_of_string (ToLower str)).

Definition nl_str : string := String GoRegexp.newline EmptyString.

(** the token the lexer reads for the piece the builder emits for [c] *)
Definition tok_of (c : ascii) : GoRegexp.rtok :=
  if Ascii.eqb c "*"%char then GoRegexp.RStarDot
  else if Ascii.eqb c "|"%char then GoRegexp.RAlt
  else GoRegexp.RLit c.

(** induction on filters, with the hypothesis on every child *)
Fixpoint Filter_nested_ind (P : Filter -> Prop)
    (H : forall t a v cs i an fi, Forall P cs -> P (mkFilter t a v cs i an fi))
    (f : Filter) : P f :=
  match f with
  | mkFilter t a v cs i an fi =>
      H t a v cs i an fi
        ((fix go (cs : list Filter) : Forall P cs :=
            match cs with
            | [] => @List.Forall_nil Filter P
            | c :: cs' => @List.Forall_cons Filter P c cs' (Filter_nested_ind P H c) (go cs')
            end) cs)
  end.



(** [sort.Slice]'s comparison in [NewRuleEngine] *)
Definition rule_less (r1 r2 : Rule) : bool := (Priority r2 <? Priority r1)%Z.

(** insertion of [x] after every rule of priority at least its own *)
Fixpoint ins_rule (x : Rule) (l : list Rule) : list Rule :=
  match l with
  | [] => [x]
  | y :: ys => if rule_less x y then x :: y :: ys else y :: ins_rule x ys
  end.

Definition ssort_rules (l : list Rule) : list Rule :=
  List.fold_left (fun acc x => ins_rule x acc) l [].

Definition prio_desc (r1 r2 : Rule) : Prop := (Priority r2 <= Priority r1)%Z.

Definition c2_rule (id : string) (p : Z) : Rule :=
  mkRule id id "(cn=test)" "" "sub" p (mkResponse [] []).

Definition c2_rules12 : list Rule :=
  List.map (fun id => c2_rule id 1) ["r1"; "r2"; "r3"; "r4"; "r5"; "r6"; "r7"; "r8"; "r9"; "r10"; "r11"; "r12"].

Definition c2_rules13 : list Rule := c2_rule "r0" 0 :: c2_rules12.

Definition c2_request : SearchRequest := mkSearchRequest "" ScopeSub "(cn=test)".

(* ================================================================== *)
(** * Properties *)

(** evaluations of the model on small inputs *)

Example parse_ex1 : ParseFilter "(cn=John*)" =
  Some (mkFilter FilterSubstring "cn" "" [] "John" [] "").
Proof. reflexivity. Qed.

Example parse_ex2 : ParseFilter "(&(cn=John)(mail=*))" =
  Some (mkFilter FilterAnd "" "" [leaf FilterEqual "cn" "John"; leaf FilterPresent "mail" ""] "" [] "").
Proof. reflexivity. Qed.

Example parse_ex3 : ParseFilter " (!(|(a>=1)(B~=x)(c<=2)(d=*x*y*)))" =
  Some (mkFilter FilterNot "" "" [mkFilter FilterOr "" "" [leaf FilterGreaterOrEqual "a" "1";
     leaf FilterApprox "b" "x"; leaf FilterLessOrEqual "c" "2";
     mkFilter FilterSubstring "d" "" [] "" ["x"; "y"] ""] "" [] ""] "" [] "").
Proof. reflexivity. Qed.

Example parse_ex4 : ParseFilter "(&)" = None /\ ParseFilter "(cn)" = None /\
  ParseFilter "(&(a=1)(b=2)" = None /\ ParseFilter "" = None.
Proof. repeat split; reflexivity. Qed.

Example wild_ex : wildcardMatch "John*" "johnny" = true /\ wildcardMatch "J.hn" "john" = false /\
  wildcardMatch "*@example.com" "a@example.com" = true /\ wildcardMatch "a*" "b" = false.
Proof. repeat split; reflexivity. Qed.

Example fm_ex : structurallyMatches "(&(cn=John))" "(&(cn=John)(mail=john@example.com))" = Some true /\
  structurallyMatches "(&(cn=John)(mail=john@example.com))" "(&(cn=John))" = Some false /\
  structurallyMatches "(|(cn=a)(cn=b))" "(cn=B)" = Some true /\
  structurallyMatches "(cn~=J*)" "(&(x=1)(cn~=john))" = Some true.
Proof. repeat split; reflexivity. Qed.

(** C1: for two [And] (or two [Or]) nodes, the rule matches iff it has no
    more children than the request and each rule child structurally matches
    some request child, searched independently (a request child may serve
    several rule children); the spec's example holds in both directions. *)
Theorem filtersMatch_and_or_children (rule req : Filter) :
  FType rule = FType req ->
  FType rule = FilterAnd \/ FType rule = FilterOr ->
  filtersMatch rule req =
    (List.length (Children rule) <=? List.length (Children req)) &&
    List.forallb (fun rc => List.existsb (fun qc => filtersMatch rc qc) (Children req))
      (Children rule)
  /\ structurallyMatches "(&(cn=John))" "(&(cn=John)(mail=john@example.com))" = Some true
  /\ structurallyMatches "(&(cn=John)(mail=john@example.com))" "(&(cn=John))" = Some false.
Proof.
  intros Hty Hk. split; [|split; reflexivity].
  destruct rule as [rt ra rv rcs ri rany rf], req as [qt qa qv qcs qi qany qf].
  simpl in *. subst qt.
  destruct Hk as [-> | ->]; simpl;
    destruct (Nat.ltb_spec (List.length qcs) (List.length rcs)) as [Hlt|Hge];
    (destruct (Nat.leb_spec (List.length rcs) (List.length qcs)); [|]); simpl; lia || reflexivity.
Qed.

Lemma filtersMatch_and_or_children_witness :
  structurallyMatches "(|(cn=a)(sn=b))" "(|(sn=B)(x=1))" = Some false /\
  filtersMatch (mkFilter FilterOr "" "" [leaf FilterEqual "cn" "a"] "" [] "")
               (mkFilter FilterOr "" "" [leaf FilterEqual "sn" "b"; leaf FilterEqual "cn" "A"] "" [] "") = true.
Proof.
  split; [reflexivity|].
  destruct (filtersMatch_and_or_children
              (mkFilter FilterOr "" "" [leaf FilterEqual "cn" "a"] "" [] "")
              (mkFilter FilterOr "" "" [leaf FilterEqual "sn" "b"; leaf FilterEqual "cn" "A"] "" [] ""))
    as [-> _]; [reflexivity | right; reflexivity | reflexivity].
Defined.

(** C7: a rule whose filter text, or a query whose filter text, does not
    parse is skipped: the dispatcher goes on with the next rule, and it
    returns a result (an [option Rule]) rather than an error. *)
Theorem FindMatchingRule_skips_unparsable (rule : Rule) (rules : list Rule) (req : SearchRequest) :
  ParseFilter (RFilter rule) = None \/ ParseFilter (RFilterStr req) = None ->
  matchRuleFilter (RFilter rule) (RFilterStr req) = false /\
  FindMatchingRule (rule :: rules) req = FindMatchingRule rules req.
Proof.
  intros Hparse.
  assert (Hm : matchRuleFilter (RFilter rule) (RFilterStr req) = false).
  { unfold matchRuleFilter.
    destruct Hparse as [-> | Hq]; [reflexivity|].
    destruct (ParseFilter (RFilter rule)); [rewrite Hq|]; reflexivity. }
  split; [exact Hm|].
  simpl. rewrite Hm. simpl.
  destruct (negb (String.eqb (BaseDN rule) "") && negb (EqualFold (BaseDN rule) (RBaseDN req)));
    [reflexivity|].
  destruct (negb (String.eqb (Scope rule) "") && negb (ParseScope (Scope rule) =? RScope req)%Z);
    reflexivity.
Qed.

Lemma FindMatchingRule_skips_unparsable_witness :
  let bad := mkRule "1" "bad" "(cn=test" "" "" 5 (mkResponse [] []) in
  let good := mkRule "2" "good" "(cn=test)" "" "" 1 (mkResponse [] []) in
  let req := mkSearchRequest "dc=example" ScopeSub "(cn=test)" in
  (ParseFilter (RFilter bad) = None \/ ParseFilter (RFilterStr req) = None) /\
  FindMatchingRule [bad; good] req = Some good.
Proof.
  cbv zeta. split; [left; reflexivity|].
  rewrite (proj2 (FindMatchingRule_skips_unparsable
                    (mkRule "1" "bad" "(cn=test" "" "" 5 (mkResponse [] []))
                    [mkRule "2" "good" "(cn=test)" "" "" 1 (mkResponse [] [])]
                    (mkSearchRequest "dc=example" ScopeSub "(cn=test)") (or_introl eq_refl))).
  reflexivity.
Defined.

(** C8: [filterUsers] returns the records unchanged for the universal
    filter, for the empty text and for a text that does not parse (fail
    open); so whenever it drops a record, the text is a parsed filter that
    is neither universal nor empty.  This holds whatever order [range]
    visits the attribute maps in. *)
Theorem filterUsers_fail_open
    (map_iter : gmap string string -> list (string * string)) (users : list User) (s : string) :
  ((s = "(objectClass=*)" \/ s = "" \/ ParseFilter s = None) -> filterUsers map_iter users s = users) /\
  (filterUsers map_iter users s <> users ->
     s <> "(objectClass=*)" /\ s <> "" /\ exists f, ParseFilter s = Some f).
Proof.
  assert (Hkeep : (s = "(objectClass=*)" \/ s = "" \/ ParseFilter s = None) ->
                  filterUsers map_iter users s = users).
  { intros [-> | [-> | Hp]]; [reflexivity | reflexivity |].
    unfold filterUsers. rewrite Hp.
    destruct (String.eqb s "(objectClass=*)" || String.eqb s ""); reflexivity. }
  split; [exact Hkeep|].
  intros Hne. repeat split.
  - intros ->. apply Hne, Hkeep. left; reflexivity.
  - intros ->. apply Hne, Hkeep. right; left; reflexivity.
  - destruct (ParseFilter s) as [f|] eqn:Hp; [exists f; reflexivity|].
    exfalso. apply Hne, Hkeep. right; right; reflexivity.
Qed.

(** C9: [buildFilter] gives the universal filter for the empty attribute
    and for the reserved ["searchFingerprint"], and otherwise the plain,
    unescaped concatenation ["(" + attr + "=" + value + ")"]. *)
Theorem buildFilter_spec (attr value : string) :
  buildFilter "" value = "(objectClass=*)" /\
  buildFilter "searchFingerprint" value = "(objectClass=*)" /\
  (attr <> "" -> attr <> "searchFingerprint" ->
     buildFilter attr value = "(" ++ attr ++ "=" ++ value ++ ")").
Proof.
  split; [reflexivity|]. split; [reflexivity|].
  intros H1 H2. unfold buildFilter.
  destruct (String.eqb_spec attr "") as [E|_]; [contradiction|].
  destruct (String.eqb_spec attr "searchFingerprint") as [E|_]; [contradiction|].
  reflexivity.
Qed.

Example buildFilter_ex : buildFilter "cn" "a*)(|(x=1)" = "(cn=a*)(|(x=1))".
Proof. reflexivity. Qed.

(* ------------------------------------------------------------------ *)
(** ** String lemmas

    stdpp makes [String.append] [simpl never]; [ssimpl] rewrites it first. *)

Lemma sapp_nil (s : string) : "" ++ s = s.
Proof. reflexivity. Qed.

Lemma sapp_cons (c : ascii) (s1 s2 : string) : String c s1 ++ s2 = String c (s1 ++ s2).
Proof. reflexivity. Qed.

Ltac ssimpl := repeat progress (rewrite ?sapp_nil, ?sapp_cons; simpl).

Lemma length_app (s1 s2 : string) :
  String.length (s1 ++ s2) = String.length s1 + String.length s2.
Proof. induction s1; ssimpl; congruence. Qed.

Lemma substring_app_l (p r : string) (m : nat) :
  substring (String.length p) m (p ++ r) = substring 0 m r.
Proof. induction p; ssimpl; [reflexivity | exact IHp]. Qed.

Lemma substring_0_all (s : string) : substring 0 (String.length s) s = s.
Proof. induction s; ssimpl; congruence. Qed.

Lemma substring_0_app (p r : string) : substring 0 (String.length p) (p ++ r) = p.
Proof. induction p; ssimpl; [destruct r; reflexivity | congruence]. Qed.

Lemma slice_from_app (p r : string) : slice_from (p ++ r) (String.length p) = r.
Proof.
  unfold slice_from. rewrite length_app, substring_app_l.
  replace (String.length p + String.length r - String.length p) with (String.length r) by lia.
  apply substring_0_all.
Qed.

Lemma slice_to_app (p r : string) : slice_to (p ++ r) (String.length p) = p.
Proof. apply substring_0_app. Qed.

Lemma HasPrefix_app (p r : string) : HasPrefix (p ++ r) p = true.
Proof. induction p; ssimpl; [destruct r; reflexivity|]. by rewrite Ascii.eqb_refl, IHp. Qed.

Lemma HasPrefix_true (s p : string) : HasPrefix s p = true -> s = p ++ slice_from s (String.length p).
Proof.
  revert s. induction p as [|c p IH]; intros s H.
  - unfold slice_from. ssimpl. rewrite Nat.sub_0_r, substring_0_all. reflexivity.
  - destruct s as [|d s]; simpl in H; [discriminate|].
    apply andb_prop in H as [Hc Hp]. apply Ascii.eqb_eq in Hc. subst d.
    ssimpl. f_equal. rewrite (IH s Hp) at 1. unfold slice_from. ssimpl. reflexivity.
Qed.

Lemma substring_split (s : string) (n : nat) :
  n <= String.length s ->
  s = substring 0 n s ++ substring n (String.length s - n) s.
Proof.
  revert n. induction s as [|c s IH]; intros n Hn; simpl in *.
  - destruct n; reflexivity.
  - destruct n as [|n]; ssimpl.
    + rewrite substring_0_all. reflexivity.
    + f_equal. apply IH. lia.
Qed.

Lemma HasSuffix_true (s f : string) :
  HasSuffix s f = true -> s = slice_to s (String.length s - String.length f) ++ f.
Proof.
  unfold HasSuffix, slice_to. intros H. apply andb_prop in H as [Hl He].
  apply Nat.leb_le in Hl. apply String.eqb_eq in He.
  rewrite (substring_split s (String.length s - String.length f)) at 1 by lia.
  f_equal. replace (String.length s - (String.length s - String.length f)) with (String.length f) by lia.
  exact He.
Qed.

Lemma HasSuffix_app (r f : string) : HasSuffix (r ++ f) f = true.
Proof.
  unfold HasSuffix. rewrite length_app.
  replace (String.length r + String.length f - String.length f) with (String.length r) by lia.
  rewrite substring_app_l, substring_0_all, String.eqb_refl.
  apply andb_true_intro; split; [apply Nat.leb_le; lia | reflexivity].
Qed.

Lemma ToLower_length (s : string) : String.length (ToLower s) = String.length s.
Proof. induction s; ssimpl; congruence. Qed.

Lemma ToLower_empty (s : string) : ToLower s = "" -> s = "".
Proof. destruct s; ssimpl; [reflexivity | discriminate]. Qed.

(* ------------------------------------------------------------------ *)
(** ** C3: the final suffix of a substring filter *)

(** C3 refuted: for the filter [(cn=ab*ba)] and the value ["aba"], the
    prefix and the suffix overlap; the spec's reading accepts the value,
    the code rejects it. *)
Lemma matchSubstring_overlap_counterexample :
  ParseFilter "(cn=ab*ba)" = Some (mkFilter FilterSubstring "cn" "" [] "ab" [] "ba") /\
  substring_overlap_ok "aba" "ab" "ba" = true /\
  matchSubstring "aba" "ab" [] "ba" = false /\
  matchFilterInternal (mkFilter FilterSubstring "cn" "" [] "ab" [] "ba")
    (<["cn" := "aba"]> (∅ : gmap string string)) = false.
Proof. repeat split; vm_compute; reflexivity. Qed.

(** C3 amended: with a non-empty [initial] and a non-empty [final], the
    value matches iff its case-folded form is [initial ++ mid ++ final]
    (prefix and suffix do not overlap) and the [any] segments are found in
    order in [mid]. *)
Theorem matchSubstring_final_after_initial (value initial final : string) (any : list string) :
  initial <> "" -> final <> "" ->
  matchSubstring value initial any final = true <->
  exists mid, ToLower value = ToLower initial ++ mid ++ ToLower final /\
              matchSubstring_any any mid = true.
Proof.
  intros Hi Hf. unfold matchSubstring.
  assert (Hi' : String.eqb (ToLower initial) "" = false).
  { apply String.eqb_neq. intros E. apply Hi, ToLower_empty, E. }
  assert (Hf' : String.eqb (ToLower final) "" = false).
  { apply String.eqb_neq. intros E. apply Hf, ToLower_empty, E. }
  rewrite Hi', Hf'. simpl.
  split.
  - destruct (HasPrefix (ToLower value) (ToLower initial)) eqn:Hp; simpl; [|discriminate].
    set (rest := slice_from (ToLower value) (String.length (ToLower initial))).
    destruct (HasSuffix rest (ToLower final)) eqn:Hs; simpl; [|discriminate].
    intros Hany. exists (slice_to rest (String.length rest - String.length (ToLower final))).
    split; [|exact Hany].
    rewrite (HasPrefix_true _ _ Hp) at 1. fold rest. f_equal.
    exact (HasSuffix_true _ _ Hs).
  - intros [mid [Hv Hany]]. rewrite Hv.
    rewrite HasPrefix_app. simpl. rewrite slice_from_app.
    rewrite HasSuffix_app. simpl. rewrite length_app.
    replace (String.length mid + String.length (ToLower final) - String.length (ToLower final))
      with (String.length mid) by lia.
    rewrite slice_to_app. exact Hany.
Qed.

Lemma matchSubstring_final_after_initial_witness :
  "John" <> "" /\ "Doe" <> "" /\
  (exists mid, ToLower "JohnMiddleDoe" = ToLower "John" ++ mid ++ ToLower "Doe" /\
               matchSubstring_any ["Middle"] mid = true).
Proof.
  split; [discriminate|]. split; [discriminate|].
  apply (matchSubstring_final_after_initial "JohnMiddleDoe" "John" "Doe" ["Middle"]);
    [discriminate | discriminate | vm_compute; reflexivity].
Defined.

(* ------------------------------------------------------------------ *)
(** ** C4: the wildcard comparator *)

(** C4 refuted: the rule value ["a|b*"] is meant as the literal ["a|b"]
    followed by anything; the code leaves [|] unescaped, so the regular
    expression [^a|b.*$] accepts every value that starts with ["a"]. *)
Lemma wildcardMatch_pipe_counterexample :
  ParseFilter "(cn~=a|b*)" = Some (leaf FilterApprox "cn" "a|b*") /\
  ParseFilter "(cn~=axyz)" = Some (leaf FilterApprox "cn" "axyz") /\
  filtersMatch (leaf FilterApprox "cn" "a|b*") (leaf FilterApprox "cn" "axyz") = true /\
  wildcard_spec "a|b*" "axyz" = false.
Proof. repeat split; vm_compute; reflexivity. Qed.

(** C4, the code at the failing inputs: [|] is not escaped, and the [.*]
    that stands for [*] does not cross a newline. *)
Theorem wildcardMatch_code_divergence :
  "^" ++ regex_body "a|b*" ++ "$" = "^a|b.*$" /\
  wildcardMatch "a|b*" "axyz" = true /\ wildcard_spec "a|b*" "axyz" = false /\
  structurallyMatches "(cn~=a|b*)" "(cn~=axyz)" = Some true /\
  wildcardMatch "a*" ("a" ++ nl_str ++ "b") = false /\
  wildcard_spec "a*" ("a" ++ nl_str ++ "b") = true /\
  structurallyMatches "(cn~=a*)" ("(cn~=a" ++ nl_str ++ "b)") = Some false.
Proof. repeat split; vm_compute; reflexivity. Qed.

(* ------------------------------------------------------------------ *)
(** ** C5: reflexivity of the structural comparator *)

Import GoRegexp.

Lemma sapp_assoc (a b c : string) : (a ++ b) ++ c = a ++ (b ++ c).
Proof. induction a; ssimpl; congruence. Qed.

Lemma regex_piece_first (c : ascii) :
  exists e r, regex_piece c = String e r /\ ContainsChar "*+?" e = false.
Proof. destruct c as [[] [] [] [] [] [] [] []]; eexists _, _; split; reflexivity. Qed.

Lemma regex_body_first (p : string) (e : ascii) (X : string) :
  regex_body p ++ "$" = String e X -> ContainsChar "*+?" e = false.
Proof.
  destruct p as [|c p]; ssimpl.
  - intros H. injection H as <- _. reflexivity.
  - destruct (regex_piece_first c) as (e' & r & Hc & He).
    rewrite Hc. ssimpl. intros H. injection H as <- _. exact He.
Qed.

Lemma lex_piece (c : ascii) (X : string) :
  (forall e X', X = String e X' -> ContainsChar "*+?" e = false) ->
  lex (regex_piece c ++ X) = option_map (cons (tok_of c)) (lex X).
Proof.
  intros HX.
  destruct (Ascii.eqb_spec c "*"%char) as [->|Hc].
  - change (regex_piece "*"%char ++ X) with (String "."%char (String "*"%char X)).
    cbn [lex]. destruct X as [|e X'].
    + reflexivity.
    + rewrite (HX e X' eq_refl). reflexivity.
  - destruct c as [[] [] [] [] [] [] [] []];
      try (exfalso; apply Hc; reflexivity); reflexivity.
Qed.

Lemma lex_body (p : string) :
  lex (regex_body p ++ "$") = Some (map tok_of (list_ascii_of_string p) ++ [REnd])%list.
Proof.
  induction p as [|c p IH]; [reflexivity|].
  cbn [regex_body list_ascii_of_string map]. rewrite sapp_assoc, lex_piece, IH; [reflexivity|].
  intros e X' HX. exact (regex_body_first p e X' HX).
Qed.

Lemma lex_wildcard (p : string) :
  lex ("^" ++ regex_body p ++ "$") = Some (RBegin :: map tok_of (list_ascii_of_string p) ++ [REnd])%list.
Proof. change ("^" ++ ?Y) with (String "^"%char Y). cbn [lex]. rewrite lex_body. reflexivity. Qed.

Lemma m_star_step (br : list rtok) (pos : nat) (c : ascii) (rest : list ascii) :
  Ascii.eqb c newline = false -> m br (S pos) rest = true ->
  m (RStarDot :: br) pos (c :: rest) = true.
Proof.
  intros Hc H. cbn [m]. rewrite Hc.
  destruct rest as [|d r]; cbn [negb andb]; rewrite H; apply orb_true_r.
Qed.

(** the first alternative of the regular expression built from [p] matches
    [p] itself *)
Lemma first_branch_self (p : list ascii) (pos : nat) :
  exists b bs, split_alt (map tok_of p ++ [REnd])%list = b :: bs /\ m b pos p = true.
Proof.
  revert pos. induction p as [|c p IH]; intros pos.
  - exists [REnd], []. split; reflexivity.
  - destruct (IH (S pos)) as (b & bs & Hs & Hm).
    cbn [map app].
    destruct (Ascii.eqb_spec c "*"%char) as [->|Hstar].
    + change (tok_of "*"%char) with RStarDot.
      exists (RStarDot :: b), bs. cbn [split_alt]. rewrite Hs. split; [reflexivity|].
      apply m_star_step; [reflexivity | exact Hm].
    + destruct (Ascii.eqb_spec c "|"%char) as [->|Hbar].
      * change (tok_of "|"%char) with RAlt.
        exists [], (split_alt (map tok_of p ++ [REnd])%list). split; reflexivity.
      * replace (tok_of c) with (RLit c)
          by (unfold tok_of; apply Ascii.eqb_neq in Hstar, Hbar; rewrite Hstar, Hbar; reflexivity).
        exists (RLit c :: b), bs. cbn [split_alt]. rewrite Hs. split; [reflexivity|].
        cbn [m]. rewrite Ascii.eqb_refl, Hm. reflexivity.
Qed.

Lemma wildcardMatch_refl (v : string) : wildcardMatch v v = true.
Proof.
  unfold wildcardMatch, MatchString. rewrite lex_wildcard.
  destruct (first_branch_self (list_ascii_of_string (ToLower v)) 0) as (b & bs & Hs & Hm).
  cbn [split_alt]. rewrite Hs. cbn [List.existsb].
  apply orb_true_intro. left.
  destruct (list_ascii_of_string (ToLower v)) eqn:E; cbn [search m]; rewrite Hm; reflexivity.
Qed.

Lemma FilterType_eqb_refl (t : FilterType) : FilterType_eqb t t = true.
Proof. by destruct t. Qed.

Lemma EqualFold_refl (s : string) : EqualFold s s = true.
Proof. apply String.eqb_refl. Qed.

Lemma forallb_EqualFold_combine_self (xs : list string) :
  List.forallb (fun '(x, y) => EqualFold x y) (List.combine xs xs) = true.
Proof. induction xs as [|x xs IH]; simpl; [reflexivity|]. by rewrite EqualFold_refl, IH. Qed.

Lemma filtersMatch_refl (f : Filter) : filtersMatch f f = true.
Proof.
  induction f as [t a v cs i an fi IH] using Filter_nested_ind.
  cbn [filtersMatch]. rewrite FilterType_eqb_refl. cbn [negb].
  destruct t; rewrite ?EqualFold_refl, ?wildcardMatch_refl; cbn [negb].
  - rewrite Nat.ltb_irrefl. apply forallb_forall. intros c Hc.
    apply existsb_exists. exists c. split; [exact Hc|].
    rewrite List.Forall_forall in IH. exact (IH c Hc).
  - rewrite Nat.ltb_irrefl. apply forallb_forall. intros c Hc.
    apply existsb_exists. exists c. split; [exact Hc|].
    rewrite List.Forall_forall in IH. exact (IH c Hc).
  - destruct cs as [|c cs]; [reflexivity|]. by inversion IH.
  - by destruct (ContainsChar v "*"%char).
  - by destruct (ContainsChar v "*"%char).
  - by destruct (ContainsChar v "*"%char).
  - by destruct (ContainsChar v "*"%char).
  - reflexivity.
  - rewrite !andb_false_r.
    destruct (0 <? List.length an); [|reflexivity].
    rewrite Nat.eqb_refl. apply forallb_EqualFold_combine_self.
Qed.

(** C5: every filter the parser produces structurally matches itself,
    whatever its node kinds and whether or not its values contain [*]. *)
Theorem filtersMatch_refl_parsed (s : string) (f : Filter) :
  ParseFilter s = Some f -> filtersMatch f f = true.
Proof. intros _. apply filtersMatch_refl. Qed.

Lemma filtersMatch_refl_parsed_witness :
  ParseFilter "(&(cn~=a|*)(!(sn=*x*y))(|(a>=*)(b=*)))" =
    Some (mkFilter FilterAnd "" "" [leaf FilterApprox "cn" "a|*";
      mkFilter FilterNot "" "" [mkFilter FilterSubstring "sn" "" [] "" ["x"] "y"] "" [] "";
      mkFilter FilterOr "" "" [leaf FilterGreaterOrEqual "a" "*"; leaf FilterPresent "b" ""] "" [] ""] "" [] "") /\
  filtersMatch (mkFilter FilterAnd "" "" [leaf FilterApprox "cn" "a|*";
      mkFilter FilterNot "" "" [mkFilter FilterSubstring "sn" "" [] "" ["x"] "y"] "" [] "";
      mkFilter FilterOr "" "" [leaf FilterGreaterOrEqual "a" "*"; leaf FilterPresent "b" ""] "" [] ""] "" [] "")
    (mkFilter FilterAnd "" "" [leaf FilterApprox "cn" "a|*";
      mkFilter FilterNot "" "" [mkFilter FilterSubstring "sn" "" [] "" ["x"] "y"] "" [] "";
      mkFilter FilterOr "" "" [leaf FilterGreaterOrEqual "a" "*"; leaf FilterPresent "b" ""] "" [] ""] "" [] "")
  = true.
Proof.
  split; [vm_compute; reflexivity|].
  apply (filtersMatch_refl_parsed "(&(cn~=a|*)(!(sn=*x*y))(|(a>=*)(b=*)))").
  vm_compute. reflexivity.
Defined.

(* ------------------------------------------------------------------ *)
(** ** C6: what the parser rejects *)


Lemma get_app_len (p r : string) (c : ascii) :
  String.get (String.length p) (p ++ String c r) = Some c.
Proof. induction p; ssimpl; [reflexivity | exact IHp]. Qed.


Lemma sapp_nil_r (s : string) : s ++ "" = s.
Proof. induction s; ssimpl; congruence. Qed.

Lemma substring_length_le (s : string) (i k : nat) :
  String.length (substring i k s) <= k /\
  String.length (substring i k s) <= String.length s - i.
Proof.
  revert i k. induction s as [|c s IH]; intros [|i] [|k]; simpl; try lia.
  - destruct (IH 0 k). lia.
  - apply IH.
  - apply IH.
Qed.

Lemma strip_runes_length (R : list string) (n : nat) (s : string) :
  String.length (strip_runes R n s) <= String.length s.
Proof.
  revert s. induction n as [|n IH]; intros s; [reflexivity|]. cbn [strip_runes].
  destruct (List.find _ R) as [r|]; [|lia].
  etransitivity; [apply IH|]. unfold slice_from.
  pose proof (substring_length_le s (String.length r) (String.length s - String.length r)). lia.
Qed.

Lemma rev_str_length (s : string) : String.length (rev_str s) = String.length s.
Proof. induction s; simpl; [reflexivity|]. rewrite length_app. simpl. lia. Qed.

Lemma TrimSpace_length (s : string) : String.length (TrimSpace s) <= String.length s.
Proof.
  unfold TrimSpace, trim_right, trim_left.
  rewrite rev_str_length. etransitivity; [apply strip_runes_length|].
  rewrite rev_str_length. apply strip_runes_length.
Qed.


Lemma rev_str_app (a b : string) : rev_str (a ++ b) = rev_str b ++ rev_str a.
Proof.
  induction a as [|c a IH]; ssimpl; [rewrite sapp_nil_r; reflexivity|].
  rewrite IH, sapp_assoc. reflexivity.
Qed.



(** Any fuel of at least [2 * n + 1] for a text of length [n] gives the
    result of [ParseFilter]. *)
Lemma ParseFilter_fuel_stable (n : nat) :
  (forall s m, 2 * String.length s + 1 <= n -> n <= m ->
     ParseFilter_fuel n s = ParseFilter_fuel m s) /\
  (forall s m, 2 * String.length s + 2 <= n -> n <= m ->
     parseFilterComp n s = parseFilterComp m s) /\
  (forall s ft m, 2 * String.length s + 3 <= n -> n <= m ->
     parseFilterList n s ft = parseFilterList m s ft) /\
  (forall s m, 2 * String.length s + 2 <= n -> n <= m ->
     parseFilterList_loop n s = parseFilterList_loop m s).
Proof.
  induction n as [|n IH]; [repeat split; intros; lia|].
  destruct IH as (IHp & IHc & IHl & IHo).
  split; [|split; [|split]].
  - intros s [|m] Hn Hm; [lia|]. cbn [ParseFilter_fuel].
    pose proof (TrimSpace_length s) as Ht.
    destruct (String.length (TrimSpace s) =? 0) eqn:E0; [reflexivity|].
    apply Nat.eqb_neq in E0.
    destruct (_ || _); [reflexivity|].
    pose proof (substring_length_le (TrimSpace s) 1 (String.length (TrimSpace s) - 2)).
    apply IHc; lia.
  - intros s [|m] Hn Hm; [lia|]. cbn [parseFilterComp].
    destruct s as [|c rest]; [reflexivity|]. cbn [String.length] in Hn.
    destruct (Ascii.eqb c "&"%char); [apply IHl; lia|].
    destruct (Ascii.eqb c "|"%char); [apply IHl; lia|].
    destruct (Ascii.eqb c "!"%char); [|reflexivity].
    rewrite (IHp rest m) by lia. reflexivity.
  - intros s ft [|m] Hn Hm; [lia|]. cbn [parseFilterList].
    rewrite (IHo s m) by lia. reflexivity.
  - intros s [|m] Hn Hm; [lia|]. cbn [parseFilterList_loop].
    destruct s as [|c s']; [reflexivity|].
    destruct (negb _); [reflexivity|].
    destruct (scan_depth (String c s') 0 0) as [d e].
    destruct (negb _); [reflexivity|].
    cbn [String.length] in Hn.
    pose proof (substring_length_le (String c s') 0 (S e)) as [_ H1].
    pose proof (substring_length_le (String c s') (S e) (String.length (String c s') - S e)) as [_ H2].
    cbn [String.length] in H1, H2.
    unfold slice_to, slice_from. cbn [String.length].
    rewrite (IHp _ m) by lia. rewrite (IHo _ m) by lia. reflexivity.
Qed.


Lemma parseFilterComp_fuel_enough (n : nat) (s : string) :
  2 * String.length s + 2 <= n ->
  parseFilterComp n s = parseFilterComp (2 * String.length s + 2) s.
Proof.
  intros H. symmetry.
  apply (proj1 (proj2 (ParseFilter_fuel_stable (2 * String.length s + 2)))); lia.
Qed.



















(* ------------------------------------------------------------------ *)
(** ** C10: the reserved key ["cn"] in [filterUsers] *)

Section MapRange.

(** [range] visits every entry of the map once, in some order *)
Variable map_iter : gmap string string -> list (string * string).
Hypothesis map_iter_perm : forall m, map_iter m ≡ₚ map_to_list m.

Lemma fold_insert_notin (l : list (string * string)) (m0 : gmap string string) (k : string) :
  k ∉ l.*1 -> List.fold_left (fun m '(k, v) => <[k := v]> m) l m0 !! k = m0 !! k.
Proof.
  revert m0. induction l as [|[k' v'] l IH]; intros m0 Hk; simpl; [reflexivity|].
  simpl in Hk. apply not_elem_of_cons in Hk as [Hne Hk].
  rewrite IH by exact Hk. apply lookup_insert_ne. congruence.
Qed.

Lemma fold_insert_in (l : list (string * string)) (m0 : gmap string string) (k v : string) :
  NoDup l.*1 -> (k, v) ∈ l ->
  List.fold_left (fun m '(k, v) => <[k := v]> m) l m0 !! k = Some v.
Proof.
  revert m0. induction l as [|[k' v'] l IH]; intros m0 Hnd Hin; simpl.
  - by apply not_elem_of_nil in Hin.
  - simpl in Hnd. apply NoDup_cons in Hnd as [Hk' Hnd].
    apply elem_of_cons in Hin as [[= -> ->] | Hin].
    + rewrite fold_insert_notin by exact Hk'. apply lookup_insert_eq.
    + apply IH; assumption.
Qed.

Lemma map_iter_elem (m : gmap string string) (k v : string) :
  (k, v) ∈ map_iter m <-> m !! k = Some v.
Proof. rewrite (map_iter_perm m). apply elem_of_map_to_list. Qed.

Lemma map_iter_NoDup (m : gmap string string) : NoDup (map_iter m).*1.
Proof. rewrite (map_iter_perm m). apply NoDup_fst_map_to_list. Qed.

(** the attribute map of a record is its declared attributes, with ["cn"]
    mapped to the identity field only when no ["cn"] is declared *)
Lemma user_attrs_union (user : User) :
  user_attrs map_iter user = Attrs user ∪ <["cn" := CN user]> (∅ : gmap string string).
Proof.
  apply map_eq. intros k. unfold user_attrs.
  destruct (Attrs user !! k) as [w|] eqn:E.
  - rewrite lookup_union, E. rewrite (fold_insert_in _ _ k w).
    + by destruct (<["cn" := CN user]> (∅ : gmap string string) !! k).
    + apply map_iter_NoDup.
    + by apply map_iter_elem.
  - rewrite lookup_union_r by exact E. apply fold_insert_notin.
    intros Hk. apply list_elem_of_fmap in Hk as ([k' w] & -> & Hin).
    apply map_iter_elem in Hin. simpl in E. congruence.
Qed.

End MapRange.

Lemma fold_lower_some (l : list (string * string)) (m0 : gmap string string) (x w : string) :
  List.fold_left (fun m '(k, v) => <[ToLower k := v]> m) l m0 !! x = Some w ->
  (exists k, ToLower k = x /\ (k, w) ∈ l) \/ m0 !! x = Some w.
Proof.
  revert m0. induction l as [|[k' v'] l IH]; intros m0 H; simpl in H; [right; exact H|].
  destruct (IH _ H) as [(k & Hk & Hin) | Hm].
  - left. exists k. split; [exact Hk | by apply elem_of_cons; right].
  - destruct (String.eqb_spec (ToLower k') x) as [<-|Hne].
    + rewrite lookup_insert_eq in Hm. injection Hm as ->.
      left. exists k'. split; [reflexivity | apply elem_of_cons; left; reflexivity].
    + rewrite lookup_insert_ne in Hm by exact Hne. right. exact Hm.
Qed.

Lemma fold_lower_is_some (l : list (string * string)) (m0 : gmap string string) (k w : string) :
  (k, w) ∈ l \/ is_Some (m0 !! ToLower k) ->
  is_Some (List.fold_left (fun m '(k, v) => <[ToLower k := v]> m) l m0 !! ToLower k).
Proof.
  revert m0. induction l as [|[k' v'] l IH]; intros m0 H; simpl.
  - destruct H as [Hin | Hs]; [by apply not_elem_of_nil in Hin | exact Hs].
  - apply IH. destruct H as [Hin | Hs].
    + apply elem_of_cons in Hin as [[= -> ->] | Hin]; [right | left; exact Hin].
      rewrite lookup_insert_eq. eauto.
    + right. destruct (String.eqb_spec (ToLower k') (ToLower k)) as [->|Hne].
      * rewrite lookup_insert_eq. eauto.
      * rewrite lookup_insert_ne by exact Hne. exact Hs.
Qed.

(** C10: [filterUsers] builds each record's attribute map by first mapping
    the key ["cn"] to the record's [CN] field and then copying the declared
    attributes over it.  So the map is the declared attributes extended with
    ["cn"], and a declared ["cn"] attribute wins over the [CN] field.  The
    filter sees that same value under ["cn"] after lower-casing, provided no
    other declared key lower-cases to ["cn"]. *)
Theorem user_attrs_cn_override
    (map_iter : gmap string string -> list (string * string)) (user : User) :
  (forall m, map_iter m ≡ₚ map_to_list m) ->
  user_attrs map_iter user = Attrs user ∪ <["cn" := CN user]> (∅ : gmap string string) /\
  user_attrs map_iter user !! "cn" = Some (default (CN user) (Attrs user !! "cn")) /\
  ((forall k, ToLower k = "cn" -> is_Some (Attrs user !! k) -> k = "cn") ->
   normalize map_iter (user_attrs map_iter user) !! "cn" = user_attrs map_iter user !! "cn").
Proof.
  intros Hperm.
  pose proof (user_attrs_union map_iter Hperm user) as HU.
  assert (Hcn : user_attrs map_iter user !! "cn" = Some (default (CN user) (Attrs user !! "cn"))).
  { rewrite HU, lookup_union, lookup_insert_eq.
    by destruct (Attrs user !! "cn"). }
  split; [exact HU|]. split; [exact Hcn|].
  intros Huniq. rewrite Hcn. unfold normalize.
  destruct (fold_lower_is_some (map_iter (user_attrs map_iter user)) ∅ "cn"
              (default (CN user) (Attrs user !! "cn"))) as [w Hw].
  { left. by apply (map_iter_elem map_iter Hperm). }
  change (ToLower "cn") with "cn" in Hw. rewrite Hw.
  destruct (fold_lower_some _ _ _ _ Hw) as [(k & Hk & Hin) | Hm].
  - apply (map_iter_elem map_iter Hperm) in Hin.
    destruct (String.eqb_spec k "cn") as [->|Hne].
    + congruence.
    + rewrite HU, lookup_union in Hin.
      rewrite (lookup_insert_ne _ "cn" k) in Hin by congruence.
      rewrite lookup_empty in Hin.
      destruct (Attrs user !! k) eqn:E; [|discriminate].
      exfalso. apply Hne, Huniq; [exact Hk | rewrite E; eauto].
  - by rewrite lookup_empty in Hm.
Qed.

Lemma user_attrs_cn_override_witness :
  (forall m : gmap string string, map_to_list m ≡ₚ map_to_list m) /\
  user_attrs map_to_list (mkUser "John" (<["cn" := "Johnny"]> ∅)) !! "cn" = Some "Johnny" /\
  normalize map_to_list (user_attrs map_to_list (mkUser "John" (<["cn" := "Johnny"]> ∅))) !! "cn"
    = Some "Johnny".
Proof.
  assert (Hp : forall m : gmap string string, map_to_list m ≡ₚ map_to_list m)
    by (intros; reflexivity).
  destruct (user_attrs_cn_override map_to_list (mkUser "John" (<["cn" := "Johnny"]> ∅)) Hp)
    as (_ & H1 & H2).
  split; [exact Hp|]. split.
  - rewrite H1. vm_compute. reflexivity.
  - rewrite H2; [rewrite H1; vm_compute; reflexivity|].
    intros k Hk Hs. simpl in Hs.
    destruct (String.eqb_spec k "cn") as [->|Hne]; [reflexivity|].
    rewrite lookup_insert_ne in Hs by congruence. vm_compute in Hs. destruct Hs as [? Hs]. discriminate.
Defined.

(* ------------------------------------------------------------------ *)
(** ** C2: the order [NewRuleEngine] leaves the rules in *)

Section RuleSort.
Local Open Scope list_scope.

Lemma Swap_adj (q r : list Rule) (x y : Rule) :
  GoSort.Swap dummy_rule (q ++ y :: x :: r) (S (length q)) (length q) = q ++ x :: y :: r.
Proof.
  unfold GoSort.Swap.
  rewrite !app_nth2 by lia.
  replace (S (length q) - length q) with 1 by lia.
  replace (length q - length q) with 0 by lia. simpl.
  rewrite (insert_app_r_alt q _ (length q)) by lia.
  replace (length q - length q) with 0 by lia. simpl.
  rewrite (insert_app_r_alt q _ (S (length q))) by lia.
  replace (S (length q) - length q) with 1 by lia. reflexivity.
Qed.

(** the inner loop of [insertionSort_func] moves [x] left past [p2], the
    rules of lower priority, and stops after [p1] *)
Lemma insertion_inner_spec (p1 p2 r : list Rule) (x : Rule) :
  Forall (fun y => (Priority x <= Priority y)%Z) p1 ->
  Forall (fun y => (Priority y < Priority x)%Z) p2 ->
  GoSort.insertion_inner rule_less dummy_rule (length (p1 ++ p2)) 0 ((p1 ++ p2) ++ x :: r)
  = p1 ++ x :: p2 ++ r.
Proof.
  intros H1. revert r. induction p2 as [|y p2 IH] using rev_ind; intros r H2.
  - rewrite !app_nil_r. destruct p1 as [|z p1'] using rev_ind; [reflexivity|].
    clear IHp1'. rewrite List.length_app. simpl length.
    replace (length p1' + 1) with (S (length p1')) by lia. simpl.
    unfold GoSort.Less, rule_less.
    rewrite <- app_assoc. simpl.
    rewrite (app_nth2 p1' (z :: x :: r)) by lia.
    rewrite (app_nth2 p1' (z :: x :: r)) by lia.
    replace (S (length p1') - length p1') with 1 by lia.
    replace (length p1' - length p1') with 0 by lia. simpl.
    apply Forall_app in H1 as [_ Hz]. apply List.Forall_cons_iff in Hz as [Hz _].
    destruct (Z.ltb_spec (Priority z) (Priority x)); [lia|].
    reflexivity.
  - apply Forall_app in H2 as [H2 Hy]. apply List.Forall_cons_iff in Hy as [Hy _].
    rewrite app_assoc, List.length_app. simpl length.
    replace (length (p1 ++ p2) + 1) with (S (length (p1 ++ p2))) by lia.
    simpl GoSort.insertion_inner.
    unfold GoSort.Less at 1, rule_less at 1.
    rewrite <- (app_assoc (p1 ++ p2) [y]). simpl.
    rewrite !app_nth2 by lia.
    replace (S (length (p1 ++ p2)) - length (p1 ++ p2)) with 1 by lia.
    replace (length (p1 ++ p2) - length (p1 ++ p2)) with 0 by lia. simpl.
    destruct (Z.ltb_spec (Priority y) (Priority x)); [|lia].
    rewrite Swap_adj, IH by exact H2.
    rewrite <- !app_assoc. reflexivity.
Qed.

Lemma ins_rule_split (x : Rule) (p : list Rule) :
  StronglySorted prio_desc p ->
  exists p1 p2, p = p1 ++ p2 /\ ins_rule x p = p1 ++ x :: p2 /\
    Forall (fun y => (Priority x <= Priority y)%Z) p1 /\
    Forall (fun y => (Priority y < Priority x)%Z) p2.
Proof.
  induction p as [|y ys IH]; intros Hs.
  - exists [], []. repeat split; constructor.
  - apply StronglySorted_inv in Hs as [Hs Hy]. simpl. unfold rule_less.
    destruct (Z.ltb_spec (Priority y) (Priority x)) as [Hlt|Hge].
    + exists [], (y :: ys). repeat split; [constructor|].
      constructor; [exact Hlt|].
      eapply List.Forall_impl; [|exact Hy]. unfold prio_desc. intros z Hz. lia.
    + destruct (IH Hs) as (p1 & p2 & -> & Hi & H1 & H2).
      exists (y :: p1), p2. rewrite Hi. repeat split; [constructor; [lia|exact H1] | exact H2].
Qed.

Lemma ins_rule_perm (x : Rule) (p : list Rule) : ins_rule x p ≡ₚ x :: p.
Proof.
  induction p as [|y ys IH]; simpl; [reflexivity|].
  destruct (rule_less x y); [reflexivity|].
  rewrite IH. apply Permutation_swap.
Qed.

Lemma ins_rule_sorted (x : Rule) (p : list Rule) :
  StronglySorted prio_desc p -> StronglySorted prio_desc (ins_rule x p).
Proof.
  induction p as [|y ys IH]; intros Hs; simpl.
  - constructor; constructor.
  - pose proof Hs as Hs'. apply StronglySorted_inv in Hs as [Hs Hy]. unfold rule_less.
    destruct (Z.ltb_spec (Priority y) (Priority x)) as [Hlt|Hge].
    + constructor; [exact Hs'|]. constructor; [unfold prio_desc; lia|].
      eapply List.Forall_impl; [|exact Hy]. unfold prio_desc. intros z Hz. lia.
    + constructor; [apply IH, Hs|].
      apply List.Forall_forall. intros z Hz.
      apply (Permutation_in _ (ins_rule_perm x ys)) in Hz.
      destruct Hz as [<-|Hz]; [unfold prio_desc; lia|].
      rewrite List.Forall_forall in Hy. apply Hy, Hz.
Qed.

Lemma ssort_rules_snoc (p : list Rule) (x : Rule) :
  ssort_rules (p ++ [x]) = ins_rule x (ssort_rules p).
Proof. unfold ssort_rules. rewrite fold_left_app. reflexivity. Qed.

Lemma ssort_rules_sorted (p : list Rule) : StronglySorted prio_desc (ssort_rules p).
Proof.
  induction p as [|x p IH] using rev_ind; [constructor|].
  rewrite ssort_rules_snoc. apply ins_rule_sorted, IH.
Qed.

Lemma ssort_rules_perm (p : list Rule) : ssort_rules p ≡ₚ p.
Proof.
  induction p as [|x p IH] using rev_ind; [reflexivity|].
  rewrite ssort_rules_snoc, ins_rule_perm, IH.
  apply Permutation_cons_append.
Qed.

(** [insertionSort_func]'s outer loop, started after the prefix [p] *)
Lemma insertion_fold (p r : list Rule) :
  List.fold_left (fun l i => GoSort.insertion_inner rule_less dummy_rule i 0 l)
    (List.seq (length p) (length r)) (ssort_rules p ++ r) = ssort_rules (p ++ r).
Proof.
  revert p. induction r as [|x r IH]; intros p; simpl.
  - rewrite !app_nil_r. reflexivity.
  - destruct (ins_rule_split x (ssort_rules p) (ssort_rules_sorted p))
      as (p1 & p2 & Hp & Hi & H1 & H2).
    assert (Hlen : length p = length (p1 ++ p2)).
    { rewrite <- Hp. symmetry. apply Permutation_length, ssort_rules_perm. }
    rewrite Hlen, Hp, insertion_inner_spec by assumption.
    replace (p1 ++ x :: p2 ++ r) with (ssort_rules (p ++ [x]) ++ r)
      by (rewrite ssort_rules_snoc, Hi, <- app_assoc; reflexivity).
    replace (S (length (p1 ++ p2))) with (length (p ++ [x]))
      by (rewrite List.length_app, Hlen; simpl; lia).
    rewrite IH, <- app_assoc. reflexivity.
Qed.

(** up to [maxInsertion] elements [pdqsort_func] is [insertionSort_func] *)
Lemma NewRuleEngine_small (rules : list Rule) :
  length rules <= 12 -> NewRuleEngine rules = ssort_rules rules.
Proof.
  intros Hn. unfold NewRuleEngine, GoSort.Slice. cbn [GoSort.pdqsort_func].
  replace (length rules - 0 <=? GoSort.maxInsertion) with true
    by (symmetry; apply Nat.leb_le; unfold GoSort.maxInsertion; lia).
  unfold GoSort.insertionSort_func.
  destruct rules as [|x r]; [reflexivity|].
  simpl length. replace (S (length r) - 1) with (length r) by lia.
  exact (insertion_fold [x] r).
Qed.

Lemma filter_prio_lt (c : Z) (l : list Rule) :
  Forall (fun y => (Priority y < c)%Z) l ->
  List.filter (fun r => (Priority r =? c)%Z) l = [].
Proof.
  induction l as [|y l IH]; intros H; simpl; [reflexivity|].
  apply List.Forall_cons_iff in H as [Hy H].
  destruct (Z.eqb_spec (Priority y) c); [lia|]. apply IH, H.
Qed.

Lemma filter_ins_rule (c : Z) (x : Rule) (p : list Rule) :
  StronglySorted prio_desc p ->
  List.filter (fun r => (Priority r =? c)%Z) (ins_rule x p)
  = List.filter (fun r => (Priority r =? c)%Z) p ++ List.filter (fun r => (Priority r =? c)%Z) [x].
Proof.
  intros Hs. destruct (ins_rule_split x p Hs) as (p1 & p2 & -> & -> & H1 & H2).
  rewrite !List.filter_app. simpl.
  destruct (Z.eqb_spec (Priority x) c) as [<-|Hne].
  - rewrite (filter_prio_lt (Priority x) p2 H2). rewrite app_nil_r. reflexivity.
  - rewrite app_nil_r. reflexivity.
Qed.

Lemma ssort_rules_filter (c : Z) (p : list Rule) :
  List.filter (fun r => (Priority r =? c)%Z) (ssort_rules p)
  = List.filter (fun r => (Priority r =? c)%Z) p.
Proof.
  induction p as [|x p IH] using rev_ind; [reflexivity|].
  rewrite ssort_rules_snoc, filter_ins_rule by apply ssort_rules_sorted.
  rewrite IH, List.filter_app. reflexivity.
Qed.

(** C2, the stable case: [NewRuleEngine] copies the input slice and sorts the copy,
    so the caller's slice is left as it is.  [sort.Slice] is not a stable
    sort.  For at most [maxInsertion] = 12 rules it runs an insertion sort,
    and that sort is stable.  The result is then a permutation of the input,
    ordered by descending priority, and rules of equal priority keep their
    declaration order. *)
Theorem NewRuleEngine_stable_upto_12 (rules : list Rule) :
  length rules <= 12 ->
  NewRuleEngine rules ≡ₚ rules /\
  StronglySorted prio_desc (NewRuleEngine rules) /\
  (forall c : Z, List.filter (fun r => (Priority r =? c)%Z) (NewRuleEngine rules)
                 = List.filter (fun r => (Priority r =? c)%Z) rules).
Proof.
  intros Hn. rewrite (NewRuleEngine_small rules Hn).
  split; [apply ssort_rules_perm|]. split; [apply ssort_rules_sorted|].
  intros c. apply ssort_rules_filter.
Qed.

Lemma NewRuleEngine_stable_upto_12_witness :
  length c2_rules12 <= 12 /\
  List.filter (fun r => (Priority r =? 1)%Z) (NewRuleEngine c2_rules12)
  = List.filter (fun r => (Priority r =? 1)%Z) c2_rules12.
Proof.
  assert (Hn : length c2_rules12 <= 12) by (vm_compute; lia).
  split; [exact Hn|].
  destruct (NewRuleEngine_stable_upto_12 c2_rules12 Hn) as (_ & _ & H). apply H.
Defined.

(** C2: the order of equal-priority rules is not kept.  With 13 rules
    [sort.Slice] no longer uses insertion sort.  Here [r0] has
    priority 0 and [r1] to [r12] have priority 1, all with the same filter.
    [r1] matches the request and is the first rule of priority 1.  The
    pivot step puts [r6] before [r1], so [FindMatchingRule] returns [r6]. *)
Lemma NewRuleEngine_unstable_counterexample :
  List.map ID c2_rules13 = ["r0"; "r1"; "r2"; "r3"; "r4"; "r5"; "r6"; "r7"; "r8"; "r9"; "r10"; "r11"; "r12"] /\
  List.map Priority c2_rules13 = [0; 1; 1; 1; 1; 1; 1; 1; 1; 1; 1; 1; 1]%Z /\
  List.map ID (NewRuleEngine c2_rules13)
    = ["r6"; "r1"; "r2"; "r3"; "r4"; "r5"; "r7"; "r8"; "r9"; "r10"; "r11"; "r12"; "r0"] /\
  option_map ID (FindMatchingRule (List.tail c2_rules13) c2_request) = Some "r1" /\
  option_map ID (FindMatchingRule (NewRuleEngine c2_rules13) c2_request) = Some "r6".
Proof. vm_compute. repeat split. Qed.

End RuleSort.

(* ------------------------------------------------------------------ *)
(** ** The request log *)

Lemma mod_lt2 (x c : Z) :
  (0 < c)%Z -> (0 <= x < 2 * c)%Z -> (x mod c = if (x <? c)%Z then x else x - c)%Z.
Proof.
  intros Hc Hx. destruct (Z.ltb_spec x c).
  - apply Z.mod_small. lia.
  - replace x with ((x - c) + 1 * c)%Z at 1 by lia.
    rewrite Z_mod_plus_full. apply Z.mod_small. lia.
Qed.

Lemma cloneRequestLog_idem (x : LDAPRequestLog) :
  cloneRequestLog (cloneRequestLog x) = cloneRequestLog x.
Proof. destruct x as [? ? ? ? ? ? [[|? ?]|] ? [[[|? ?]|] ?]]; reflexivity. Qed.

Lemma to_nat_mod_lt (x c : Z) : (0 < c)%Z -> Z.to_nat (x mod c) < Z.to_nat c.
Proof. intros Hc. pose proof (Z.mod_pos_bound x c Hc). lia. Qed.

Lemma nth_insert_log (l : list LDAPRequestLog) (k j : nat) (e : LDAPRequestLog) :
  k < List.length l ->
  nth j (<[k := e]> l) zero_log = if decide (j = k) then e else nth j l zero_log.
Proof.
  intros Hk. rewrite !nth_lookup, list_lookup_insert.
  destruct (decide (j = k)) as [->|Hne].
  - rewrite decide_True by lia. reflexivity.
  - rewrite decide_False by lia. reflexivity.
Qed.

Lemma logger_inv_new (c : Z) : logger_inv (NewInMemoryRequestLogger c) [].
Proof.
  unfold NewInMemoryRequestLogger, logger_inv, DefaultRequestLogCapacity. simpl.
  destruct (Z.leb_spec c 0); simpl; rewrite ?repeat_length;
    (repeat split; try lia; try reflexivity; try constructor; intros i Hi; simpl in Hi; lia).
Qed.

Lemma logger_inv_clear (l : InMemoryRequestLogger) (L : list LDAPRequestLog) :
  logger_inv l L -> logger_inv (Logger_Clear l) [].
Proof.
  intros (Hc & Hlen & Hh & _). unfold logger_inv, Logger_Clear. simpl.
  repeat split; try lia; try exact Hlen; try constructor; intros i Hi; simpl in Hi; lia.
Qed.

Lemma logger_inv_log (l : InMemoryRequestLogger) (L : list LDAPRequestLog) (r : LDAPRequestLog) :
  logger_inv l L ->
  logger_inv (Logger_Log l r)
    (if List.length L <? Z.to_nat (capacity l) then (L ++ [cloneRequestLog r])%list
     else (tl L ++ [cloneRequestLog r])%list) /\
  capacity (Logger_Log l r) = capacity l.
Proof.
  intros (Hc & Hlen & Hh & Hn & Hle & Hcl & Hb).
  unfold Logger_Log. rewrite (proj2 (Z.eqb_neq _ _)) by lia.
  destruct (Nat.ltb_spec (List.length L) (Z.to_nat (capacity l))) as [Hlt|Hge].
  - rewrite (proj2 (Z.ltb_lt _ _)) by lia. split; [|reflexivity].
    unfold logger_inv; simpl. rewrite length_insert, List.length_app. simpl.
    repeat split; try lia.
    + apply List.Forall_app. split; [exact Hcl|].
      constructor; [apply cloneRequestLog_idem | constructor].
    + intros i Hi.
      rewrite nth_insert_log
        by (rewrite Hlen; apply to_nat_mod_lt; lia).
      destruct (Nat.eq_dec i (List.length L)) as [->|Hne].
      * rewrite decide_True by (rewrite Hn; reflexivity).
        rewrite app_nth2 by lia. rewrite Nat.sub_diag. reflexivity.
      * rewrite app_nth1 by lia. rewrite <- (Hb i) by lia.
        rewrite decide_False; [reflexivity|].
        rewrite Hn, !mod_lt2 by lia.
        intros Heq. apply Z2Nat.inj in Heq;
          [| destruct (Z.ltb_spec (head l + Z.of_nat i) (capacity l)); lia
           | destruct (Z.ltb_spec (head l + Z.of_nat (List.length L)) (capacity l)); lia].
        destruct (Z.ltb_spec (head l + Z.of_nat i) (capacity l));
          destruct (Z.ltb_spec (head l + Z.of_nat (List.length L)) (capacity l)); lia.
  - assert (HL : Z.of_nat (List.length L) = capacity l) by lia.
    rewrite (proj2 (Z.ltb_ge _ _)) by lia. split; [|reflexivity].
    destruct L as [|x0 L]; [simpl in HL; lia|]. simpl tl.
    unfold logger_inv; simpl. rewrite length_insert, List.length_app. simpl in *.
    repeat split; try lia.
    + apply Z.mod_pos_bound. lia.
    + apply Z.mod_pos_bound. lia.
    + inversion Hcl as [|? ? _ Hcl']. apply List.Forall_app. split; [exact Hcl'|].
      constructor; [apply cloneRequestLog_idem | constructor].
    + intros i Hi. rewrite Zplus_mod_idemp_l.
      rewrite nth_insert_log by (rewrite Hlen; lia).
      destruct (Nat.eq_dec i (List.length L)) as [->|Hne].
      * rewrite decide_True.
        { rewrite app_nth2 by lia. rewrite Nat.sub_diag. reflexivity. }
        f_equal. rewrite mod_lt2 by lia.
        destruct (Z.ltb_spec (head l + 1 + Z.of_nat (List.length L)) (capacity l)); lia.
      * rewrite app_nth1 by lia.
        specialize (Hb (S i) ltac:(lia)). simpl nth in Hb.
        rewrite <- Hb. rewrite decide_False.
        { f_equal. f_equal. f_equal. lia. }
        rewrite mod_lt2 by lia. intros Heq.
        apply Z2Nat.inj in Heq;
          [| destruct (Z.ltb_spec (head l + 1 + Z.of_nat i) (capacity l)); lia | lia].
        destruct (Z.ltb_spec (head l + 1 + Z.of_nat i) (capacity l)); lia.
Qed.

Lemma logger_list_inv (l : InMemoryRequestLogger) (L : list LDAPRequestLog) :
  logger_inv l L -> Logger_List l = match L with [] => None | _ :: _ => Some (rev L) end.
Proof.
  intros (Hc & Hlen & Hh & Hn & Hle & Hcl & Hb). unfold Logger_List.
  destruct L as [|x0 L0] eqn:EL; [rewrite Hn; reflexivity|].
  rewrite <- EL in *. rewrite (proj2 (Z.eqb_neq _ _)) by (rewrite Hn, EL; simpl; lia).
  f_equal. apply nth_ext with (d := zero_log) (d' := zero_log).
  { rewrite List.length_map, length_seq, length_rev. lia. }
  rewrite List.length_map, length_seq. intros i Hi.
  match goal with
  | |- nth i (List.map ?f ?xs) _ = _ =>
      transitivity (f (nth i xs 0));
        [rewrite <- (map_nth f xs 0 i); apply nth_indep; rewrite List.length_map, length_seq; exact Hi
        | cbv beta]
  end.
  rewrite seq_nth by exact Hi. simpl.
  rewrite rev_nth by lia.
  replace ((head l + count l - 1 - Z.of_nat i + capacity l) mod capacity l)%Z
    with ((head l + Z.of_nat (List.length L - S i)) mod capacity l)%Z.
  - rewrite Hb by lia. rewrite List.Forall_forall in Hcl. apply Hcl, nth_In. lia.
  - replace (head l + count l - 1 - Z.of_nat i + capacity l)%Z
      with ((head l + Z.of_nat (List.length L - S i)) + 1 * capacity l)%Z by lia.
    rewrite Z_mod_plus_full. reflexivity.
Qed.

Lemma log_window_snoc (cap : nat) (xs : list LDAPRequestLog) (x : LDAPRequestLog) :
  0 < cap ->
  log_window cap (xs ++ [x]) =
  (if List.length (log_window cap xs) <? cap then log_window cap xs ++ [x]
   else tl (log_window cap xs) ++ [x])%list.
Proof.
  intros Hcap. unfold log_window. rewrite length_skipn, List.length_app. simpl.
  destruct (Nat.ltb_spec (List.length xs - (List.length xs - cap)) cap) as [Hlt|Hge].
  - replace (List.length xs - cap) with 0 by lia.
    replace (List.length xs + 1 - cap) with 0 by lia. reflexivity.
  - rewrite skipn_app. replace (List.length xs + 1 - cap - List.length xs) with 0 by lia.
    simpl. f_equal.
    replace (tl (skipn (List.length xs - cap) xs)) with (skipn 1 (skipn (List.length xs - cap) xs))
      by (destruct (skipn (List.length xs - cap) xs); reflexivity).
    rewrite skipn_skipn. f_equal. lia.
Qed.

Lemma logger_run_inv (ops : list LoggerOp) (l : InMemoryRequestLogger) (es : list LDAPRequestLog) :
  logger_inv l (log_window (Z.to_nat (capacity l)) (List.map cloneRequestLog es)) ->
  logger_inv (List.fold_left logger_step ops l)
    (log_window (Z.to_nat (capacity l)) (List.map cloneRequestLog (List.fold_left since_clear_step ops es))) /\
  capacity (List.fold_left logger_step ops l) = capacity l.
Proof.
  revert l es. induction ops as [|op ops IH]; intros l es Hinv; simpl; [split; [exact Hinv | reflexivity]|].
  destruct op as [r|].
  - destruct (logger_inv_log _ _ r Hinv) as [Hinv' Hcap].
    rewrite <- log_window_snoc in Hinv' by (destruct Hinv; lia).
    replace ((List.map cloneRequestLog es ++ [cloneRequestLog r])%list)
      with (List.map cloneRequestLog (es ++ [r])) in Hinv' by (rewrite List.map_app; reflexivity).
    rewrite <- Hcap in Hinv' |- *. apply IH. exact Hinv'.
  - apply logger_inv_clear in Hinv. change (capacity l) with (capacity (Logger_Clear l)).
    apply (IH (Logger_Clear l) []). exact Hinv.
Qed.

Lemma Logger_List_run (c : Z) (ops : list LoggerOp) :
  Logger_List (run_logger c ops) =
  match since_clear ops with
  | [] => None
  | es => Some (List.firstn (Z.to_nat (logger_cap c)) (rev (List.map cloneRequestLog es)))
  end.
Proof.
  unfold run_logger, since_clear.
  destruct (logger_run_inv ops (NewInMemoryRequestLogger c) [] (logger_inv_new c)) as [Hinv _].
  rewrite (logger_list_inv _ _ Hinv).
  replace (capacity (NewInMemoryRequestLogger c)) with (logger_cap c) by reflexivity.
  assert (Hcap : 0 < Z.to_nat (logger_cap c))
    by (unfold logger_cap, DefaultRequestLogCapacity; destruct (Z.leb_spec c 0); lia).
  destruct (List.fold_left since_clear_step ops []) as [|e es] eqn:E; [reflexivity|].
  unfold log_window.
  destruct (skipn _ _) as [|w ws] eqn:W.
  - exfalso. apply (f_equal (@List.length _)) in W.
    rewrite length_skipn, List.length_map in W. simpl in W. lia.
  - rewrite <- W, firstn_rev, List.length_map. reflexivity.
Qed.

(** X1: after any sequence of [Log] and [Clear] calls on a fresh logger,
    [List] returns nil when nothing was logged since the last [Clear], and
    otherwise the requests logged since then, newest first, cut to the
    capacity (1000 when the requested capacity is not positive), each
    passed through [cloneRequestLog]. *)
Theorem Logger_List_window (c : Z) (ops : list LoggerOp) :
  Logger_List (run_logger c ops) =
  match since_clear ops with
  | [] => None
  | es => Some (List.firstn (Z.to_nat (logger_cap c)) (rev (List.map cloneRequestLog es)))
  end.
Proof. apply Logger_List_run. Qed.


(* ------------------------------------------------------------------ *)
(** ** strconv.Atoi *)

Lemma byte_of_bound (c : ascii) : (0 <= byte_of c < 256)%Z.
Proof. unfold byte_of. pose proof (nat_ascii_bounded c). lia. Qed.

Lemma atoi_fast_digits_dec (s : string) (n : Z) : atoi_fast_digits s n = dec_value_from s n.
Proof.
  revert n. induction s as [|c s IH]; intros n; [reflexivity|]. simpl.
  unfold is_dec_digit. pose proof (byte_of_bound c).
  destruct (Z.leb_spec 48 (byte_of c)), (Z.leb_spec (byte_of c) 57); simpl.
  - rewrite Z.mod_small by lia. rewrite (proj2 (Z.ltb_ge _ _)) by lia. apply IH.
  - rewrite Z.mod_small by lia. rewrite (proj2 (Z.ltb_lt _ _)) by lia. reflexivity.
  - rewrite (proj2 (Z.ltb_lt _ _)); [reflexivity|].
    replace (byte_of c - 48)%Z with ((byte_of c + 208) + (-1) * 256)%Z by lia.
    rewrite Z_mod_plus_full, Z.mod_small; lia.
  - lia.
Qed.

Lemma dec_value_bound (s : string) (n v : Z) :
  (0 <= n)%Z -> dec_value_from s n = Some v ->
  (n * 10 ^ Z.of_nat (String.length s) <= v < (n + 1) * 10 ^ Z.of_nat (String.length s))%Z.
Proof.
  revert n. induction s as [|c s IH]; intros n Hn H; simpl in H.
  - injection H as <-. simpl. lia.
  - unfold is_dec_digit in H. pose proof (byte_of_bound c).
    destruct (Z.leb_spec 48 (byte_of c)), (Z.leb_spec (byte_of c) 57); simpl in H; try discriminate.
    apply IH in H; [|lia]. cbn [String.length]. rewrite Nat2Z.inj_succ, Z.pow_succ_r by lia.
    pose proof (Z.pow_pos_nonneg 10 (Z.of_nat (String.length s))). nia.
Qed.

Lemma parseUint10_loop_sound (s : string) (n u : Z) :
  (0 <= n)%Z -> parseUint10_loop s n = Some u -> dec_value_from s n = Some u.
Proof.
  revert n. induction s as [|c s IH]; intros n Hn H; [exact H|]. simpl in H |- *.
  unfold is_dec_digit. pose proof (byte_of_bound c).
  destruct ((48 <=? byte_of c)%Z && (byte_of c <=? 57)%Z) eqn:Hd.
  - apply andb_prop in Hd as [Hd1 Hd2]. apply Z.leb_le in Hd1, Hd2.
    rewrite (proj2 (Z.leb_gt _ _)) in H by lia.
    destruct (Z.leb_spec (maxUint64 / 10 + 1) n); [discriminate|].
    unfold maxUint64 in *. change (2 ^ 64)%Z with 18446744073709551616%Z in *.
    change ((18446744073709551616 - 1) / 10 + 1)%Z with 1844674407370955162%Z in *.
    rewrite (Z.mod_small (n * 10)) in H by lia.
    destruct (Z.ltb_spec (n * 10 + (byte_of c - 48)) 18446744073709551616).
    + rewrite Z.mod_small in H by lia.
      rewrite (proj2 (Z.ltb_ge _ _)), (proj2 (Z.ltb_ge _ _)) in H by lia.
      apply IH; [lia | exact H].
    + rewrite (proj2 (Z.ltb_lt ((n * 10 + (byte_of c - 48)) mod 18446744073709551616) (n * 10))) in H;
        [discriminate|].
      replace (n * 10 + (byte_of c - 48))%Z
        with ((n * 10 + (byte_of c - 48) - 18446744073709551616) + 1 * 18446744073709551616)%Z by lia.
      rewrite Z_mod_plus_full, Z.mod_small; lia.
  - destruct ((97 <=? Z.lor (byte_of c) 32)%Z && (Z.lor (byte_of c) 32 <=? 122)%Z) eqn:Hl;
      [|discriminate].
    apply andb_prop in Hl as [Hl1 _]. apply Z.leb_le in Hl1.
    rewrite (proj2 (Z.leb_le 10 _)) in H by lia. discriminate.
Qed.

Lemma parseUint10_loop_complete (s : string) (n v : Z) :
  (0 <= n)%Z -> dec_value_from s n = Some v -> (v < 2 ^ 64)%Z -> parseUint10_loop s n = Some v.
Proof.
  revert n. induction s as [|c s IH]; intros n Hn H Hv; [exact H|].
  pose proof (dec_value_bound _ _ _ Hn H) as Hb. simpl in H |- *.
  unfold is_dec_digit in H. pose proof (byte_of_bound c).
  destruct ((48 <=? byte_of c)%Z && (byte_of c <=? 57)%Z) eqn:Hd; [|discriminate].
  apply andb_prop in Hd as [Hd1 Hd2]. apply Z.leb_le in Hd1, Hd2.
  pose proof (dec_value_bound s (n * 10 + (byte_of c - 48)) v ltac:(lia) H) as Hb'.
  pose proof (Z.pow_pos_nonneg 10 (Z.of_nat (String.length s))).
  assert (Hnv : (n * 10 + (byte_of c - 48) <= v)%Z) by nia.
  rewrite (proj2 (Z.leb_gt _ _)) by lia. unfold maxUint64.
  change (2 ^ 64)%Z with 18446744073709551616%Z in *.
  change ((18446744073709551616 - 1) / 10 + 1)%Z with 1844674407370955162%Z.
  rewrite (proj2 (Z.leb_gt _ _)) by lia.
  rewrite (Z.mod_small (n * 10)) by lia. rewrite Z.mod_small by lia.
  rewrite (proj2 (Z.ltb_ge _ _)), (proj2 (Z.ltb_ge _ _)) by lia.
  apply IH; [lia | exact H | exact Hv].
Qed.

Lemma ParseInt10_tail (neg : bool) (r : string) :
  r <> EmptyString ->
  match ParseUint10 r with
  | None => None
  | Some un =>
      if negb neg && (2 ^ 63 <=? un)%Z then None
      else if neg && (2 ^ 63 <? un)%Z then None
      else Some (if neg then - un else un)%Z
  end = int64_digits neg r.
Proof.
  intros Hr. destruct r as [|a r]; [contradiction|]. unfold ParseUint10, int64_digits.
  cbn [String.eqb]. destruct (parseUint10_loop (String a r) 0) as [u|] eqn:Ep.
  - rewrite (parseUint10_loop_sound (String a r) 0 u ltac:(lia) Ep).
    destruct neg; simpl.
    + destruct (Z.ltb_spec (2 ^ 63) u), (Z.leb_spec u (2 ^ 63)); try reflexivity; lia.
    + destruct (Z.leb_spec (2 ^ 63) u), (Z.ltb_spec u (2 ^ 63)); try reflexivity; lia.
  - destruct (dec_value_from (String a r) 0) as [v|] eqn:Ed; [|reflexivity].
    destruct (Z.ltb_spec v (2 ^ 64)) as [Hv|Hv].
    + rewrite (parseUint10_loop_complete (String a r) 0 v ltac:(lia) Ed Hv) in Ep. discriminate.
    + destruct neg.
      * rewrite (proj2 (Z.leb_gt _ _)) by lia. reflexivity.
      * rewrite (proj2 (Z.ltb_ge _ _)) by lia. reflexivity.
Qed.

Lemma atoi_fast_int64 (neg : bool) (r : string) :
  String.length r < 19 ->
  match dec_value_from r 0 with
  | None => None
  | Some n => Some (if neg then - n else n)%Z
  end =
  match dec_value_from r 0 with
  | None => None
  | Some v =>
      if neg then (if (v <=? 2 ^ 63)%Z then Some (- v)%Z else None)
      else (if (v <? 2 ^ 63)%Z then Some v else None)
  end.
Proof.
  intros Hl. destruct (dec_value_from r 0) as [v|] eqn:Ed; [|reflexivity].
  apply dec_value_bound in Ed; [|lia].
  assert (H18 : (10 ^ Z.of_nat (String.length r) <= 10 ^ 18)%Z)
    by (apply Z.pow_le_mono_r; lia).
  change (10 ^ 18)%Z with 1000000000000000000%Z in H18.
  change (2 ^ 63)%Z with 9223372036854775808%Z.
  destruct neg.
  - rewrite (proj2 (Z.leb_le _ _)) by lia. reflexivity.
  - rewrite (proj2 (Z.ltb_lt _ _)) by lia. reflexivity.
Qed.

Lemma atoi_ref_correct (s : string) : Atoi s = atoi_ref s.
Proof.
  destruct s as [|c r]; [reflexivity|].
  unfold Atoi, atoi_ref. cbn [String.length].
  destruct (Nat.ltb_spec (S (String.length r)) 19) as [Hs|Hs].
  - rewrite (proj2 (Nat.ltb_lt 0 _)) by lia. simpl andb. cbv iota beta.
    rewrite atoi_fast_digits_dec.
    destruct (Ascii.eqb_spec c "-"%char) as [->|Hm].
    + destruct r as [|c' r']; [reflexivity|]. cbn -[dec_value_from Z.pow].
      apply (atoi_fast_int64 true). simpl in Hs |- *. lia.
    + destruct (Ascii.eqb_spec c "+"%char) as [->|Hp].
      * destruct r as [|c' r']; [reflexivity|]. cbn -[dec_value_from Z.pow].
        apply (atoi_fast_int64 false). simpl in Hs |- *. lia.
      * unfold int64_digits.
        cbn [orb andb].
        apply (atoi_fast_int64 false). simpl. lia.
  - rewrite andb_false_r.
    unfold ParseInt10. cbn [String.eqb].
    assert (Hr : r <> EmptyString) by (intros ->; simpl in Hs; lia).
    destruct (Ascii.eqb_spec c "-"%char) as [->|Hm].
    + apply (ParseInt10_tail true r Hr).
    + destruct (Ascii.eqb_spec c "+"%char) as [->|Hp].
      * apply (ParseInt10_tail false r Hr).
      * apply (ParseInt10_tail false (String c r)). discriminate.
Qed.

(** X2: [strconv.Atoi] (64-bit [int]) accepts exactly an optional [+] or
    [-] followed by at least one ASCII digit, whose value lies in
    [-2^63, 2^63 - 1]; it rejects everything else (empty input, a lone
    sign, any other character, an out-of-range value).  Both its fast path
    for short strings and its [ParseInt] fallback behave so. *)
Theorem Atoi_spec (s : string) : Atoi s = atoi_ref s.
Proof. exact (atoi_ref_correct s). Qed.


(** X3: [GET /requests?limit=s] answers with every logged request (nil
    when there is none) when [s] is empty; with 400 ["invalid limit"]
    when [s] is not an [int] or is negative; and otherwise with the first
    [s] entries, newest first, of what [List] returns, all of them when
    [s] is at least their number ([limit=0] gives an empty non-nil list). *)
Theorem handle_requests_spec (s : string) (l : InMemoryRequestLogger) :
  handle_requests s l =
  if String.eqb s "" then RequestsJSON (Logger_List l) else
  match atoi_ref s with
  | Some v => if (v <? 0)%Z then RequestsBadRequest "invalid limit"
              else RequestsJSON (option_map (List.firstn (Z.to_nat v)) (Logger_List l))
  | None => RequestsBadRequest "invalid limit"
  end.
Proof.
  unfold handle_requests. rewrite atoi_ref_correct.
  destruct (String.eqb s "").
  - destruct (Logger_List l); reflexivity.
  - destruct (atoi_ref s) as [v|]; [|reflexivity].
    destruct (Z.ltb_spec v 0); [reflexivity|].
    destruct (Logger_List l) as [xs|]; [|destruct (_ && _); reflexivity].
    rewrite (proj2 (Z.leb_le 0 v)) by lia. simpl andb.
    destruct (Z.ltb_spec v (Z.of_nat (List.length xs))); [reflexivity|].
    simpl. rewrite firstn_all2 by lia. reflexivity.
Qed.

(* ------------------------------------------------------------------ *)
(** ** The shape of parsed filters *)

Lemma lower_ascii_idem (c : ascii) : lower_ascii (lower_ascii c) = lower_ascii c.
Proof.
  unfold lower_ascii.
  destruct ((65 <=? Ascii.nat_of_ascii c) && (Ascii.nat_of_ascii c <=? 90)) eqn:E;
    [|rewrite E; reflexivity].
  apply andb_prop in E as [E1 E2]. apply Nat.leb_le in E1, E2.
  rewrite nat_ascii_embedding by lia.
  rewrite (proj2 (Nat.leb_gt (Ascii.nat_of_ascii c + 32) 90)) by lia.
  rewrite andb_false_r. reflexivity.
Qed.

Lemma ToLower_idem (s : string) : ToLower (ToLower s) = ToLower s.
Proof. induction s as [|c s IH]; simpl; [reflexivity|]. rewrite lower_ascii_idem, IH. reflexivity. Qed.

Lemma SplitStar_no_star (s : string) :
  List.Forall (fun p => ContainsChar p "*"%char = false) (SplitStar s).
Proof.
  induction s as [|c s IH]; simpl; [constructor; [reflexivity | constructor]|].
  destruct (Ascii.eqb c "*"%char) eqn:Ec; [constructor; [reflexivity | exact IH]|].
  destruct (SplitStar s) as [|p ps]; [constructor; [cbn [ContainsChar]; rewrite Ascii.eqb_sym, Ec; reflexivity | constructor]|].
  apply List.Forall_cons_iff in IH as [Hp Hps].
  constructor; [cbn [ContainsChar]; rewrite Ascii.eqb_sym, Ec, Hp; reflexivity | exact Hps].
Qed.

Lemma Forall_last {A} (P : A -> Prop) (l : list A) (d : A) :
  List.Forall P l -> P d -> P (List.last l d).
Proof.
  intros Hl Hd. induction Hl as [|x l Hx Hl IH]; [exact Hd|].
  destruct l as [|y l]; [exact Hx | exact IH].
Qed.

Lemma In_firstn {A} (n : nat) (l : list A) (x : A) : List.In x (List.firstn n l) -> List.In x l.
Proof. intros H. rewrite <- (firstn_skipn n l). apply in_or_app. left. exact H. Qed.

Lemma In_skipn {A} (n : nat) (l : list A) (x : A) : List.In x (List.skipn n l) -> List.In x l.
Proof. intros H. rewrite <- (firstn_skipn n l). apply in_or_app. right. exact H. Qed.

Lemma parseSubstringFilter_shape (a v : string) (f : Filter) :
  parseSubstringFilter a v = Some f -> parsed_shape f = true.
Proof.
  unfold parseSubstringFilter. pose proof (SplitStar_no_star v) as Hns.
  destruct (SplitStar v) as [|p0 ps] eqn:Hs; [discriminate|].
  intros H. injection H as <-.
  assert (Hnf : forall p, List.In p (p0 :: ps) -> ContainsChar p "*"%char = false)
    by (apply List.Forall_forall; exact Hns).
  assert (Hl : ContainsChar (List.last (p0 :: ps) "") "*"%char = false)
    by (apply (Forall_last _ _ _ Hns); reflexivity).
  assert (H0 : ContainsChar p0 "*"%char = false) by (apply Hnf; left; reflexivity).
  change (match ps with [] => p0 | _ :: _ => List.last ps "" end) with (List.last (p0 :: ps) "").
  revert Hl. generalize (List.last (p0 :: ps) ""). intros lp Hl.
  cbn [parsed_shape]. try rewrite String.eqb_refl.
  rewrite (proj2 (forallb_forall _ _)).
  - destruct (negb (String.eqb p0 "")), ((1 <? S (List.length ps)) && negb (String.eqb lp "")); cbn -[ContainsChar];
      rewrite ?H0, ?Hl; reflexivity.
  - intros p Hp. apply filter_In in Hp as [Hp Hne]. rewrite Hne. simpl.
    rewrite Hnf; [reflexivity|]. apply In_firstn, In_skipn in Hp. right. exact Hp.
Qed.

Lemma leaf_shape (t : FilterType) (a v : string) :
  (t = FilterApprox \/ t = FilterGreaterOrEqual \/ t = FilterLessOrEqual) ->
  parsed_shape (leaf t (ToLower a) v) = true.
Proof.
  intros Ht. destruct Ht as [->|[->| ->]]; cbn [parsed_shape leaf];
    try rewrite String.eqb_refl; reflexivity.
Qed.

Lemma parseItem_shape (s : string) (f : Filter) :
  parseItem s = Some f -> parsed_shape f = true.
Proof.
  unfold parseItem. destruct (find_eq s) as [i|]; [|discriminate].
  destruct ((0 <? i) && is_char_at s (i - 1) "~"%char);
    [intros H; injection H as <-; apply leaf_shape; auto|].
  destruct ((0 <? i) && is_char_at s (i - 1) ">"%char);
    [intros H; injection H as <-; apply leaf_shape; auto|].
  destruct ((0 <? i) && is_char_at s (i - 1) "<"%char);
    [intros H; injection H as <-; apply leaf_shape; auto|].
  destruct (String.eqb (slice_from s (S i)) "*").
  { intros H. injection H as <-. cbn [parsed_shape leaf].
    try rewrite String.eqb_refl. reflexivity. }
  destruct (ContainsChar (slice_from s (S i)) "*"%char) eqn:Hc; [apply parseSubstringFilter_shape|].
  intros H. injection H as <-. cbn [parsed_shape leaf].
  rewrite Hc. reflexivity.
Qed.

Lemma parse_shape_fuel (n : nat) :
  (forall s f, ParseFilter_fuel n s = Some f -> parsed_shape f = true) /\
  (forall s f, parseFilterComp n s = Some f -> parsed_shape f = true) /\
  (forall s ft f, (ft = FilterAnd \/ ft = FilterOr) ->
     parseFilterList n s ft = Some f -> parsed_shape f = true) /\
  (forall s cs, parseFilterList_loop n s = Some cs -> List.forallb parsed_shape cs = true).
Proof.
  induction n as [|n (IHp & IHc & IHl & IHo)]; [repeat split; intros; discriminate|].
  split; [|split; [|split]].
  - intros s f H. cbn [ParseFilter_fuel] in H.
    destruct (String.length (TrimSpace s) =? 0); [discriminate|].
    destruct (negb _ || negb _); [discriminate|]. exact (IHc _ _ H).
  - intros s f H. cbn [parseFilterComp] in H. destruct s as [|c rest]; [discriminate|].
    destruct (Ascii.eqb c "&"%char); [exact (IHl _ _ _ (or_introl eq_refl) H)|].
    destruct (Ascii.eqb c "|"%char); [exact (IHl _ _ _ (or_intror eq_refl) H)|].
    destruct (Ascii.eqb c "!"%char); [|exact (parseItem_shape _ _ H)].
    destruct (ParseFilter_fuel n rest) as [child|] eqn:E; [|discriminate].
    injection H as <-. cbn [parsed_shape]. rewrite (IHp _ _ E). reflexivity.
  - intros s ft f Hft H. cbn [parseFilterList] in H.
    destruct (parseFilterList_loop n s) as [[|c cs]|] eqn:E; try discriminate.
    injection H as <-. apply IHo in E.
    destruct Hft as [->| ->]; cbn [parsed_shape]; rewrite E; reflexivity.
  - intros s cs H. cbn [parseFilterList_loop] in H. destruct s as [|c rest].
    { injection H as <-. reflexivity. }
    destruct (negb (Ascii.eqb c "("%char)); [discriminate|].
    destruct (scan_depth (String c rest) 0 0) as [depth end_].
    destruct (negb (depth =? 0)%Z); [discriminate|].
    destruct (ParseFilter_fuel n _) as [child|] eqn:E1; [|discriminate].
    destruct (parseFilterList_loop n _) as [cs'|] eqn:E2; [|discriminate].
    injection H as <-. simpl. rewrite (IHp _ _ E1). exact (IHo _ _ E2).
Qed.

(** X4: every filter [ParseFilter] returns has the shape its builders
    give: an And or Or node has no attribute or value and at least one
    child ([(&)] is refused); a Not node exactly one child; every leaf has
    no child; an Equal value contains no
    ['*'], a Present value is empty; the initial, final and middle pieces of
    a substring filter contain no ['*'] and its middle pieces are non-empty.
    All of this holds of every child, at every depth. *)
Theorem ParseFilter_shape (s : string) (f : Filter) :
  ParseFilter s = Some f -> parsed_shape f = true.
Proof. apply (proj1 (parse_shape_fuel _)). Qed.

Lemma ParseFilter_shape_witness :
  ParseFilter "(&(cn=John)(!(mail=*))(sn=a*b**c))" =
    Some (mkFilter FilterAnd "" ""
      [leaf FilterEqual "cn" "John";
       mkFilter FilterNot "" "" [leaf FilterPresent "mail" ""] "" [] "";
       mkFilter FilterSubstring "sn" "" [] "a" ["b"] "c"] "" [] "") /\
  parsed_shape (mkFilter FilterAnd "" ""
      [leaf FilterEqual "cn" "John";
       mkFilter FilterNot "" "" [leaf FilterPresent "mail" ""] "" [] "";
       mkFilter FilterSubstring "sn" "" [] "a" ["b"] "c"] "" [] "") = true.
Proof.
  split; [vm_compute; reflexivity|].
  apply (ParseFilter_shape "(&(cn=John)(!(mail=*))(sn=a*b**c))"). vm_compute. reflexivity.
Defined.

(* ------------------------------------------------------------------ *)
(** ** Ordering filters *)

Lemma ascii_eqb_nat (c d : ascii) :
  Ascii.eqb c d = (Ascii.nat_of_ascii c =? Ascii.nat_of_ascii d).
Proof.
  destruct (Ascii.eqb_spec c d) as [->|Hne]; [symmetry; apply Nat.eqb_refl|].
  symmetry. apply Nat.eqb_neq. intros Heq. apply Hne.
  rewrite <- (ascii_nat_embedding c), <- (ascii_nat_embedding d), Heq. reflexivity.
Qed.

Lemma le_total (a b : string) : GoStr.le a b || GoStr.le b a = true.
Proof.
  revert b. induction a as [|c a IH]; intros b; [reflexivity|].
  destruct b as [|d b]; [reflexivity|]. simpl.
  destruct (Nat.ltb_spec (Ascii.nat_of_ascii c) (Ascii.nat_of_ascii d)); [reflexivity|].
  destruct (Nat.ltb_spec (Ascii.nat_of_ascii d) (Ascii.nat_of_ascii c)); [apply orb_true_r|].
  replace (Ascii.nat_of_ascii c =? Ascii.nat_of_ascii d) with true by (symmetry; apply Nat.eqb_eq; lia).
  replace (Ascii.nat_of_ascii d =? Ascii.nat_of_ascii c) with true by (symmetry; apply Nat.eqb_eq; lia).
  simpl. apply IH.
Qed.

Lemma le_antisym (a b : string) : GoStr.le a b && GoStr.le b a = String.eqb a b.
Proof.
  revert b. induction a as [|c a IH]; intros b; destruct b as [|d b]; try reflexivity.
  simpl. rewrite ascii_eqb_nat.
  destruct (Nat.ltb_spec (Ascii.nat_of_ascii c) (Ascii.nat_of_ascii d)).
  - rewrite (proj2 (Nat.ltb_ge (Ascii.nat_of_ascii d) _)) by lia.
    rewrite (proj2 (Nat.eqb_neq (Ascii.nat_of_ascii d) _)) by lia.
    rewrite (proj2 (Nat.eqb_neq (Ascii.nat_of_ascii c) _)) by lia. reflexivity.
  - destruct (Nat.eqb_spec (Ascii.nat_of_ascii c) (Ascii.nat_of_ascii d)) as [He|Hne].
    + rewrite He, Nat.ltb_irrefl, Nat.eqb_refl. simpl. apply IH.
    + reflexivity.
Qed.

(** X5: for an attribute [a], an ASCII value [v] and normalised attributes
    whose value for [a] (if any) is ASCII, a GreaterOrEqual leaf [a>=v] or a
    LessOrEqual leaf [a<=v] matches exactly when the Present leaf for [a]
    does (the attribute is present), and both match exactly when the Equal
    leaf [a=v] does: the byte order on lower-cased strings is total and
    antisymmetric.  (On ASCII strings [strings.ToLower] and
    [strings.EqualFold] act byte by byte; on other strings Go's Unicode case
    folding can make [EqualFold] hold where the lower-cased strings
    differ.) *)
Theorem GE_LE_Present_Equal (a v : string) (attrs : gmap string string) :
  is_ascii v = true -> (forall val, attrs !! a = Some val -> is_ascii val = true) ->
  matchFilterInternal (leaf FilterGreaterOrEqual a v) attrs
    || matchFilterInternal (leaf FilterLessOrEqual a v) attrs
  = matchFilterInternal (leaf FilterPresent a "") attrs /\
  matchFilterInternal (leaf FilterGreaterOrEqual a v) attrs
    && matchFilterInternal (leaf FilterLessOrEqual a v) attrs
  = matchFilterInternal (leaf FilterEqual a v) attrs.
Proof.
  intros _ _. cbn [matchFilterInternal leaf]. destruct (attrs !! a) as [val|]; [|split; reflexivity].
  split; [apply le_total|]. rewrite le_antisym. unfold EqualFold.
  destruct (String.eqb_spec (ToLower v) (ToLower val)) as [->|Hne];
    [symmetry; apply String.eqb_refl|].
  symmetry. apply String.eqb_neq. intros He. apply Hne. symmetry. exact He.
Qed.

Lemma GE_LE_Present_Equal_witness :
  matchFilterInternal (leaf FilterGreaterOrEqual "cn" "john") (<["cn" := "John"]> ∅)
    && matchFilterInternal (leaf FilterLessOrEqual "cn" "john") (<["cn" := "John"]> ∅)
  = matchFilterInternal (leaf FilterEqual "cn" "john") (<["cn" := "John"]> ∅).
Proof.
  apply (GE_LE_Present_Equal "cn" "john" (<["cn" := "John"]> ∅)); [reflexivity|].
  intros val H. rewrite lookup_insert in H. injection H as <-. reflexivity.
Defined.

(* ------------------------------------------------------------------ *)
(** ** White space around a filter *)

Lemma find_None_intro {A} (f : A -> bool) (l : list A) :
  (forall x, List.In x l -> f x = false) -> List.find f l = None.
Proof.
  induction l as [|y l IH]; intros H; [reflexivity|]. cbn [List.find].
  rewrite (H y (or_introl eq_refl)). apply IH. intros x Hx. apply H. right. exact Hx.
Qed.

Lemma find_unique {A} (f : A -> bool) (l : list A) (r : A) :
  List.In r l -> f r = true -> (forall x, List.In x l -> f x = true -> x = r) ->
  List.find f l = Some r.
Proof.
  induction l as [|y l IH]; intros Hr Hf Hu; [destruct Hr|]. cbn [List.find].
  destruct (f y) eqn:Ey.
  - rewrite (Hu y (or_introl eq_refl) Ey). reflexivity.
  - destruct Hr as [<-|Hr]; [congruence|].
    apply IH; [exact Hr | exact Hf | intros x Hx; apply Hu; right; exact Hx].
Qed.

Lemma HasPrefix_app_cases (a t x : string) :
  HasPrefix (a ++ t) x = true -> HasPrefix a x = true \/ HasPrefix x a = true.
Proof.
  revert x. induction a as [|c a IH]; intros x H.
  - right. destruct x; reflexivity.
  - destruct x as [|d x]; [left; reflexivity|]. ssimpl. simpl in H.
    apply andb_prop in H as [Hc H]. apply Ascii.eqb_eq in Hc. subst d.
    rewrite Ascii.eqb_refl. simpl. apply IH, H.
Qed.

Lemma HasPrefix_app_r (s w x : string) : HasPrefix s x = true -> HasPrefix (s ++ w) x = true.
Proof.
  revert s. induction x as [|d x IH]; intros s H; [destruct (s ++ w); reflexivity|].
  destruct s as [|c s]; [discriminate|]. ssimpl. simpl in H |- *.
  apply andb_prop in H as [Hc H]. rewrite Hc. apply IH, H.
Qed.

Lemma HasPrefix_cancel (s a b : string) : HasPrefix (s ++ a) (s ++ b) = HasPrefix a b.
Proof. induction s as [|c s IH]; ssimpl; [reflexivity|]. rewrite Ascii.eqb_refl. exact IH. Qed.

Lemma HasPrefix_refl (s : string) : HasPrefix s s = true.
Proof. rewrite <- (sapp_nil_r s) at 1. apply HasPrefix_app. Qed.

Lemma concat_strs_app (l1 l2 : list string) :
  concat_strs (l1 ++ l2) = concat_strs l1 ++ concat_strs l2.
Proof.
  induction l1 as [|w l1 IH]; [reflexivity|]. cbn [List.app concat_strs List.fold_right] in *.
  fold (concat_strs (l1 ++ l2)) (concat_strs l1). rewrite IH, sapp_assoc. reflexivity.
Qed.

Lemma rev_str_concat (ws : list string) :
  rev_str (concat_strs ws) = concat_strs (List.rev (List.map rev_str ws)).
Proof.
  induction ws as [|w ws IH]; [reflexivity|]. cbn [concat_strs List.fold_right List.map List.rev].
  fold (concat_strs ws). rewrite rev_str_app, IH, concat_strs_app. cbn. rewrite sapp_nil_r. reflexivity.
Qed.

Section StripRunes.

(** the encodings that [strip_runes] removes *)
Variable R : list string.
Hypothesis R_nonempty : forall r, List.In r R -> r <> "".
Hypothesis R_prefix_free : forall x y, List.In x R -> List.In y R -> HasPrefix x y = true -> x = y.

Lemma find_empty_none : List.find (fun r => HasPrefix "" r) R = None.
Proof.
  apply find_None_intro. intros x Hx. destruct x as [|c x].
  - exfalso. exact (R_nonempty "" Hx eq_refl).
  - reflexivity.
Qed.

Lemma strip_runes_fuel (n m : nat) (s : string) :
  String.length s <= n -> String.length s <= m -> strip_runes R n s = strip_runes R m s.
Proof.
  revert m s. induction n as [|n IH]; intros m s Hn Hm.
  - destruct s; [|simpl in Hn; lia]. destruct m; [reflexivity|].
    cbn [strip_runes]. rewrite find_empty_none. reflexivity.
  - destruct m as [|m].
    { destruct s; [|simpl in Hm; lia]. cbn [strip_runes]. rewrite find_empty_none. reflexivity. }
    cbn [strip_runes]. destruct (List.find _ R) as [r|] eqn:E; [|reflexivity].
    apply List.find_some in E as [Hin _].
    assert (Hr : 1 <= String.length r)
      by (destruct r; [exfalso; exact (R_nonempty "" Hin eq_refl) | simpl; lia]).
    pose proof (substring_length_le s (String.length r) (String.length s - String.length r)) as [_ H].
    unfold slice_from. apply IH; lia.
Qed.

Lemma strip_rune_app (r t : string) :
  List.In r R ->
  strip_runes R (String.length (r ++ t)) (r ++ t) = strip_runes R (String.length t) t.
Proof.
  intros Hin.
  assert (Hr : 1 <= String.length r)
    by (destruct r; [exfalso; exact (R_nonempty "" Hin eq_refl) | simpl; lia]).
  replace (String.length (r ++ t)) with (S (String.length r + String.length t - 1))
    by (rewrite length_app; lia).
  cbn [strip_runes]. rewrite (find_unique (fun x => HasPrefix (r ++ t) x) R r Hin (HasPrefix_app r t)).
  - rewrite slice_from_app. apply strip_runes_fuel; lia.
  - intros x Hx H. apply HasPrefix_app_cases in H as [H|H].
    + symmetry. apply R_prefix_free; assumption.
    + apply R_prefix_free; assumption.
Qed.

Lemma strip_concat (ws : list string) (s : string) :
  List.Forall (fun w => List.In w R) ws ->
  strip_runes R (String.length (concat_strs ws ++ s)) (concat_strs ws ++ s) =
  strip_runes R (String.length s) s.
Proof.
  induction 1 as [|w ws Hw Hws IH]; [reflexivity|].
  cbn [concat_strs List.fold_right]. fold (concat_strs ws).
  rewrite sapp_assoc, strip_rune_app by exact Hw. exact IH.
Qed.

Lemma strip_concat_empty (ws : list string) :
  List.Forall (fun w => List.In w R) ws ->
  strip_runes R (String.length (concat_strs ws)) (concat_strs ws) = "".
Proof.
  intros H. pose proof (strip_concat ws "" H) as E. rewrite sapp_nil_r in E. rewrite E. reflexivity.
Qed.

(** no encoding has, after its first byte, a byte that starts an encoding *)
Hypothesis R_first_byte : forall x y k c, List.In x R -> List.In y R -> 1 <= k ->
  String.get 0 y = Some c -> String.get k x <> Some c.

(** Stripping [s ++ w], for [w] made of encodings, strips [s]; what is
    left of [s], if anything, keeps all of [w]. *)
Lemma strip_merge (n : nat) (s : string) (ws : list string) :
  List.Forall (fun w => List.In w R) ws -> String.length s <= n ->
  strip_runes R (n + String.length (concat_strs ws)) (s ++ concat_strs ws) =
  if String.eqb (strip_runes R n s) "" then "" else strip_runes R n s ++ concat_strs ws.
Proof.
  intros Hws. revert s. induction n as [|n IH]; intros s Hn.
  - destruct s; [|simpl in Hn; lia]. rewrite sapp_nil. apply strip_concat_empty, Hws.
  - destruct (String.eqb_spec s "") as [->|Hne].
    { rewrite sapp_nil, (strip_runes_fuel _ (String.length (concat_strs ws))) by lia.
      rewrite strip_concat_empty by exact Hws. cbn [strip_runes]. rewrite find_empty_none.
      reflexivity. }
    cbn [strip_runes Nat.add]. destruct (List.find (fun r => HasPrefix s r) R) as [r|] eqn:E.
    + apply List.find_some in E as [Hin Hp].
      pose proof (HasPrefix_true s r Hp) as Hs. set (s' := slice_from s (String.length r)) in *.
      rewrite (find_unique (fun x => HasPrefix (s ++ concat_strs ws) x) R r Hin).
      * rewrite Hs at 1. rewrite sapp_assoc, slice_from_app.
        apply IH. assert (Hr : 1 <= String.length r)
          by (destruct r; [exfalso; exact (R_nonempty "" Hin eq_refl) | simpl; lia]).
        rewrite Hs, length_app in Hn. lia.
      * apply HasPrefix_app_r, Hp.
      * intros x Hx H. rewrite Hs, sapp_assoc in H. apply HasPrefix_app_cases in H as [H|H].
        -- symmetry. apply R_prefix_free; assumption.
        -- apply R_prefix_free; assumption.
    + rewrite find_None_intro; [destruct (String.eqb_spec s ""); [contradiction | reflexivity]|].
      intros x Hx. destruct (HasPrefix (s ++ concat_strs ws) x) eqn:H; [exfalso|reflexivity].
      assert (Hsx : HasPrefix s x = false).
      { destruct (HasPrefix s x) eqn:Hsx; [|reflexivity].
        pose proof (List.find_none _ _ E x Hx) as Hf. cbn beta in Hf. congruence. }
      apply HasPrefix_app_cases in H as H'. destruct H' as [H'|H']; [congruence|].
      apply HasPrefix_true in H'. set (x' := slice_from x (String.length s)) in *.
      rewrite H', HasPrefix_cancel in H.
      destruct x' as [|d x''] eqn:Ex'.
      { rewrite sapp_nil_r in H'. rewrite <- H', HasPrefix_refl in Hsx. discriminate. }
      inversion Hws as [Hw0|w0 ws' Hw0 Hws' Heq]; subst ws.
      { discriminate. }
      cbn [concat_strs List.fold_right] in H.
      destruct w0 as [|c w0'] eqn:Ew0; [exfalso; exact (R_nonempty "" Hw0 eq_refl)|].
      ssimpl. simpl in H. apply andb_prop in H as [Hc _]. apply Ascii.eqb_eq in Hc. subst d.
      apply (R_first_byte x (String c w0') (String.length s) c Hx Hw0).
      * destruct s; [contradiction|]. simpl; lia.
      * reflexivity.
      * rewrite H'. apply get_app_len.
Qed.

End StripRunes.

Lemma In_space_runes (R : list string) (P : string -> bool) :
  forallb P R = true -> forall x, List.In x R -> P x = true.
Proof. intros H. apply forallb_forall, H. Qed.

Lemma space_runes_nonempty : forall r, List.In r space_runes -> r <> "".
Proof.
  intros r Hr. apply (In_space_runes space_runes (fun r => negb (String.eqb r ""))) in Hr;
    [|vm_compute; reflexivity].
  destruct (String.eqb_spec r ""); [discriminate | assumption].
Qed.

Lemma space_runes_prefix_free :
  forall x y, List.In x space_runes -> List.In y space_runes -> HasPrefix x y = true -> x = y.
Proof.
  intros x y Hx Hy H.
  apply (In_space_runes space_runes
    (fun x => forallb (fun y => negb (HasPrefix x y) || String.eqb x y) space_runes)) in Hx;
    [|vm_compute; reflexivity].
  apply (In_space_runes _ _ Hx) in Hy. rewrite H in Hy. apply String.eqb_eq, Hy.
Qed.

Lemma get_ge_length (s : string) (k : nat) : String.length s <= k -> String.get k s = None.
Proof.
  revert k. induction s as [|c s IH]; intros [|k] H; simpl in *; try lia; try reflexivity.
  apply IH. lia.
Qed.

Lemma space_runes_first_byte : forall x y k c, List.In x space_runes -> List.In y space_runes ->
  1 <= k -> String.get 0 y = Some c -> String.get k x <> Some c.
Proof.
  intros x y k c Hx Hy Hk Hc Hxk.
  apply (In_space_runes space_runes
    (fun x => forallb (fun y => forallb (fun k =>
       match String.get 0 y with Some c => negb (is_char_at x k c) | None => true end)
       (List.seq 1 (String.length x))) space_runes)) in Hx; [|vm_compute; reflexivity].
  apply (In_space_runes _ _ Hx) in Hy. rewrite Hc in Hy.
  assert (Hlt : k < String.length x).
  { destruct (Nat.lt_ge_cases k (String.length x)) as [Hl|Hl]; [exact Hl|].
    rewrite get_ge_length in Hxk by exact Hl. discriminate. }
  apply forallb_forall with (x := k) in Hy; [|apply List.in_seq; lia].
  unfold is_char_at in Hy. rewrite Hxk, Ascii.eqb_refl in Hy. discriminate.
Qed.

Lemma rev_runes_nonempty : forall r, List.In r (List.map rev_str space_runes) -> r <> "".
Proof.
  intros r Hr. apply (In_space_runes _ (fun r => negb (String.eqb r ""))) in Hr;
    [|vm_compute; reflexivity].
  destruct (String.eqb_spec r ""); [discriminate | assumption].
Qed.

Lemma rev_runes_prefix_free : forall x y, List.In x (List.map rev_str space_runes) ->
  List.In y (List.map rev_str space_runes) -> HasPrefix x y = true -> x = y.
Proof.
  intros x y Hx Hy H.
  apply (In_space_runes _
    (fun x => forallb (fun y => negb (HasPrefix x y) || String.eqb x y)
                      (List.map rev_str space_runes))) in Hx;
    [|vm_compute; reflexivity].
  apply (In_space_runes _ _ Hx) in Hy. rewrite H in Hy. apply String.eqb_eq, Hy.
Qed.

Lemma forallb_in_Forall (R ws : list string) :
  forallb (fun w => existsb (String.eqb w) R) ws = true -> List.Forall (fun w => List.In w R) ws.
Proof.
  intros H. apply List.Forall_forall. intros w Hw.
  apply (proj1 (forallb_forall _ _) H), existsb_exists in Hw as (y & Hy & He).
  apply String.eqb_eq in He. subst y. exact Hy.
Qed.

(** [TrimSpace] removes white-space runes before and after a text *)
Lemma TrimSpace_around (ws1 ws2 : list string) (s : string) :
  List.Forall (fun w => List.In w space_runes) ws1 ->
  List.Forall (fun w => List.In w space_runes) ws2 ->
  TrimSpace (concat_strs ws1 ++ s ++ concat_strs ws2) = TrimSpace s.
Proof.
  intros H1 H2. unfold TrimSpace, trim_left.
  rewrite (strip_concat space_runes space_runes_nonempty space_runes_prefix_free ws1 _ H1).
  rewrite length_app.
  rewrite (strip_merge space_runes space_runes_nonempty space_runes_prefix_free
             space_runes_first_byte _ s ws2 H2 (le_n _)).
  destruct (String.eqb_spec (strip_runes space_runes (String.length s) s) "") as [->|Hne];
    [reflexivity|].
  set (t := strip_runes space_runes (String.length s) s).
  unfold trim_right. f_equal.
  rewrite <- (rev_str_length (t ++ concat_strs ws2)), rev_str_app, rev_str_concat.
  rewrite (strip_concat _ rev_runes_nonempty rev_runes_prefix_free).
  - rewrite rev_str_length. reflexivity.
  - apply List.Forall_rev, List.Forall_map.
    eapply List.Forall_impl; [|exact H2]. intros w Hw. apply List.in_map, Hw.
Qed.

(** X6: white-space runes (as [unicode.IsSpace] sees them) before and
    after a text change nothing: [ParseFilter] of the padded text gives the
    same result as [ParseFilter] of the text. *)
Theorem ParseFilter_around_space (ws1 ws2 : list string) (s : string) :
  forallb (fun w => existsb (String.eqb w) space_runes) ws1 = true ->
  forallb (fun w => existsb (String.eqb w) space_runes) ws2 = true ->
  ParseFilter (concat_strs ws1 ++ s ++ concat_strs ws2) = ParseFilter s.
Proof.
  intros H1 H2. apply forallb_in_Forall in H1, H2.
  unfold ParseFilter. cbn [ParseFilter_fuel].
  rewrite (TrimSpace_around ws1 ws2 s H1 H2).
  pose proof (TrimSpace_length s) as Ht.
  destruct (String.length (TrimSpace s) =? 0) eqn:E0; [reflexivity|].
  apply Nat.eqb_neq in E0.
  destruct (_ || _); [reflexivity|].
  pose proof (substring_length_le (TrimSpace s) 1 (String.length (TrimSpace s) - 2)) as [Hm _].
  rewrite !length_app.
  rewrite (parseFilterComp_fuel_enough (2 * _)) by lia.
  rewrite (parseFilterComp_fuel_enough (2 * String.length s)) by lia.
  reflexivity.
Qed.

Lemma ParseFilter_around_space_witness :
  ParseFilter (concat_strs [" "; bytes [194; 160]] ++ "(cn=John)" ++ concat_strs [bytes [227; 128; 128]]) =
  ParseFilter "(cn=John)".
Proof.
  apply (ParseFilter_around_space [" "; bytes [194; 160]] [bytes [227; 128; 128]] "(cn=John)");
    vm_compute; reflexivity.
Defined.


(* ------------------------------------------------------------------ *)
(** ** The search handler and the request log *)

Lemma since_clear_snoc (ops : list LoggerOp) (r : LDAPRequestLog) :
  since_clear (ops ++ [OpLog r]) = (since_clear ops ++ [r])%list.
Proof. unfold since_clear. rewrite fold_left_app. reflexivity. Qed.

Lemma run_logger_snoc (c : Z) (ops : list LoggerOp) (r : LDAPRequestLog) :
  run_logger c (ops ++ [OpLog r]) = Logger_Log (run_logger c ops) r.
Proof. unfold run_logger. rewrite fold_left_app. reflexivity. Qed.

Lemma logger_cap_pos (c : Z) : 0 < Z.to_nat (logger_cap c).
Proof. unfold logger_cap, DefaultRequestLogCapacity. destruct (Z.leb_spec c 0); lia. Qed.

Lemma Logger_List_after_log (c : Z) (ops : list LoggerOp) (r : LDAPRequestLog) :
  Logger_List (Logger_Log (run_logger c ops) r) =
  Some (cloneRequestLog r ::
        List.firstn (Z.to_nat (logger_cap c) - 1) (default [] (Logger_List (run_logger c ops)))).
Proof.
  rewrite <- run_logger_snoc, !Logger_List_run, since_clear_snoc.
  pose proof (logger_cap_pos c) as Hc.
  destruct (Z.to_nat (logger_cap c)) as [|k] eqn:Ek; [lia|].
  replace (S k - 1) with k by lia.
  destruct (since_clear ops) as [|e es]; [simpl; rewrite firstn_nil; reflexivity|].
  simpl. rewrite List.map_app, rev_app_distr. simpl.
  rewrite firstn_firstn, Nat.min_l by lia. reflexivity.
Qed.

Lemma map_DN_entries (map_iter : gmap string string -> list (string * string))
    (users : list User) (groups : list Group) :
  List.map DN (List.map (user_entry map_iter) users ++ List.map (group_entry map_iter) groups) =
  (List.map CN users ++ List.map GCN groups)%list.
Proof.
  rewrite List.map_app, !List.map_map. reflexivity.
Qed.

(** X7: a search on a logger that has seen any sequence of [Log] and
    [Clear] calls puts its request at the head of what [List] returns,
    followed by the entries listed before, cut to the capacity.  The new
    entry has type ["search"], the request's base DN, the scope's name,
    the filter built from the request, no attributes, the ID and name of
    the matched rule (none when no rule matched), the DNs of the returned
    entries in order (nil when none is returned) and their number. *)
Theorem search_handler_logs (map_iter : gmap string string -> list (string * string))
    (mock : LDAPMock) (c : Z) (ops : list LoggerOp) (ts : Z) (rid : string)
    (req : LDAPSimpleSearchRequest) :
  let filter := buildFilter (SFilterAttr req) (SFilterValue req) in
  let '(_, _, matched) := findMatchingEntries map_iter mock req filter in
  let '(ret, l') := search_handler map_iter mock (run_logger c ops) ts rid req in
  Logger_List l' =
  Some (mkLDAPRequestLog ts rid "search" (SBaseDN req) (ScopeString (SScope req)) filter None
          (option_map (fun r => mkMatchedRuleLog (ID r) (Name r)) matched)
          (mkLDAPResponseLog (append_to_nil (List.map DN ret)) (Z.of_nat (List.length ret)))
        :: List.firstn (Z.to_nat (logger_cap c) - 1) (default [] (Logger_List (run_logger c ops)))).
Proof.
  cbv zeta. unfold search_handler.
  destruct (findMatchingEntries map_iter mock req _) as [[users groups] matched].
  rewrite Logger_List_after_log. rewrite map_DN_entries, List.length_app, !List.length_map.
  unfold cloneRequestLog. cbn -[append_to_nil]. rewrite List.length_app, !List.length_map.
  reflexivity.
Qed.

(** POST /clean followed by a search: no rule, no record *)
Lemma findMatchingEntries_clean (map_iter : gmap string string -> list (string * string))
    (req : LDAPSimpleSearchRequest) (filter : string) :
  findMatchingEntries map_iter clean_mock req filter = ([], [], None).
Proof.
  assert (H : filterUsers map_iter [] filter = []).
  { unfold filterUsers. destruct (_ || _); [reflexivity|].
    destruct (ParseFilter filter); reflexivity. }
  unfold findMatchingEntries. cbn -[filterUsers]. rewrite H. reflexivity.
Qed.

(** X8: after [POST /clean] (the mock set to [LDAPMock{}]), every search
    returns no entry and logs a request with no matched rule, an empty
    (non-nil) DN list and a count of 0; [List] then shows that request
    with a nil DN list. *)
Theorem search_after_clean (map_iter : gmap string string -> list (string * string))
    (l : InMemoryRequestLogger) (ts : Z) (rid : string) (req : LDAPSimpleSearchRequest) :
  search_handler map_iter clean_mock l ts rid req =
  ([], Logger_Log l (mkLDAPRequestLog ts rid "search" (SBaseDN req) (ScopeString (SScope req))
                       (buildFilter (SFilterAttr req) (SFilterValue req)) None None
                       (mkLDAPResponseLog (Some []) 0))).
Proof.
  unfold search_handler. rewrite findMatchingEntries_clean. reflexivity.
Qed.

(* ------------------------------------------------------------------ *)
(** ** The attributes of the returned entries *)

Lemma copy_fold_notin (l : list (string * string)) (m0 : gmap string AttrValue) (k : string) :
  k ∉ l.*1 ->
  List.fold_left (fun acc '(k, v) => <[k := AttrString v]> acc) l m0 !! k = m0 !! k.
Proof.
  revert m0. induction l as [|[k' v'] l IH]; intros m0 Hk; simpl; [reflexivity|].
  simpl in Hk. apply not_elem_of_cons in Hk as [Hne Hk].
  rewrite IH by exact Hk. apply lookup_insert_ne. congruence.
Qed.

Lemma copy_fold_in (l : list (string * string)) (m0 : gmap string AttrValue) (k v : string) :
  NoDup l.*1 -> (k, v) ∈ l ->
  List.fold_left (fun acc '(k, v) => <[k := AttrString v]> acc) l m0 !! k = Some (AttrString v).
Proof.
  revert m0. induction l as [|[k' v'] l IH]; intros m0 Hnd Hin; simpl.
  - by apply not_elem_of_nil in Hin.
  - simpl in Hnd. apply NoDup_cons in Hnd as [Hk' Hnd].
    apply elem_of_cons in Hin as [[= -> ->] | Hin].
    + rewrite copy_fold_notin by exact Hk'. apply lookup_insert_eq.
    + apply IH; assumption.
Qed.

Lemma copy_attrs_fmap (map_iter : gmap string string -> list (string * string))
    (Hperm : forall m, map_iter m ≡ₚ map_to_list m) (m : gmap string string) :
  copy_attrs map_iter m = AttrString <$> m.
Proof.
  apply map_eq. intros k. unfold copy_attrs. rewrite lookup_fmap.
  destruct (m !! k) as [v|] eqn:E; simpl.
  - apply copy_fold_in; [apply (map_iter_NoDup map_iter Hperm) | by apply (map_iter_elem map_iter Hperm)].
  - rewrite copy_fold_notin; [apply lookup_empty|].
    intros Hk. apply list_elem_of_fmap in Hk as ([k' w] & -> & Hin).
    apply (map_iter_elem map_iter Hperm) in Hin. simpl in E. congruence.
Qed.

(** X9: whatever order [range] visits the maps in, a returned user entry
    has the user's [CN] as DN and exactly the user's declared attributes
    (no ["cn"] is added, unlike the map [filterUsers] matches against); a
    group entry has the group's [CN] as DN and its declared attributes,
    with ["member"] set to the member list when there are members (over a
    declared ["member"] attribute) and left as declared otherwise. *)
Theorem search_entry_attrs (map_iter : gmap string string -> list (string * string))
    (user : User) (group : Group) :
  (forall m, map_iter m ≡ₚ map_to_list m) ->
  user_entry map_iter user = mkEntry (CN user) (AttrString <$> Attrs user) /\
  DN (group_entry map_iter group) = GCN group /\
  (forall k, EAttrs (group_entry map_iter group) !! k =
     if String.eqb k "member" && negb (is_nil (Members group))
     then Some (AttrStrings (Members group)) else AttrString <$> GAttrs group !! k).
Proof.
  intros Hperm. split; [unfold user_entry; rewrite (copy_attrs_fmap _ Hperm); reflexivity|].
  split; [reflexivity|]. intros k. unfold group_entry. rewrite (copy_attrs_fmap _ Hperm).
  destruct (Members group) as [|m ms] eqn:Em; simpl.
  - rewrite andb_false_r. apply lookup_fmap.
  - destruct (String.eqb_spec k "member") as [->|Hne]; simpl.
    + apply lookup_insert_eq.
    + rewrite lookup_insert_ne by congruence. apply lookup_fmap.
Qed.

Lemma search_entry_attrs_witness :
  user_entry map_to_list (mkUser "john" (<["mail" := "j@x"]> ∅)) =
    mkEntry "john" (<["mail" := AttrString "j@x"]> ∅) /\
  EAttrs (group_entry map_to_list (mkGroup "admins" ["john"] (<["member" := "none"]> ∅))) !! "member" =
    Some (AttrStrings ["john"]).
Proof.
  destruct (search_entry_attrs map_to_list (mkUser "john" (<["mail" := "j@x"]> ∅))
              (mkGroup "admins" ["john"] (<["member" := "none"]> ∅)) (fun m => reflexivity _))
    as (H1 & _ & H3).
  split.
  - rewrite H1. reflexivity.
  - rewrite H3. reflexivity.
Defined.

(* ------------------------------------------------------------------ *)
(** ** MatchFilter and the iteration order of the attribute map *)




(* ------------------------------------------------------------------ *)
(** ** Scopes and rule selection *)

(** X11: writing a scope with [LDAPScope.String] and reading it back with
    [ParseScope] gives back base (0) and one (1); every other value, sub
    included, comes back as sub (2).  [ParseScope] ignores case, and its
    result written back is the lower-cased input when that is ["base"] or
    ["one"], and ["sub"] for anything else. *)
Theorem ParseScope_ScopeString :
  (forall sc : Z, ParseScope (ScopeString sc) =
     if (sc =? ScopeBase)%Z || (sc =? ScopeOne)%Z then sc else ScopeSub) /\
  (forall s : string, ParseScope (ToLower s) = ParseScope s) /\
  (forall s : string, ScopeString (ParseScope s) =
     if String.eqb (ToLower s) "base" || String.eqb (ToLower s) "one" then ToLower s else "sub").
Proof.
  split; [|split].
  - intros sc. unfold ScopeString, ScopeBase, ScopeOne, ScopeSub.
    destruct (Z.eqb_spec sc 0) as [->|H0]; [reflexivity|].
    destruct (Z.eqb_spec sc 1) as [->|H1]; [reflexivity|].
    destruct (sc =? 2)%Z; reflexivity.
  - intros s. unfold ParseScope. rewrite ToLower_idem. reflexivity.
  - intros s. unfold ParseScope.
    destruct (String.eqb_spec (ToLower s) "base") as [->|Hb]; [reflexivity|].
    destruct (String.eqb_spec (ToLower s) "one") as [->|Ho]; [reflexivity|].
    destruct (String.eqb (ToLower s) "sub"); reflexivity.
Qed.

